(** * World IM: the world engine and the agent engine

    A shallow embedding of [src/world.js] (class [World]) and of the parts of
    [src/agent.js] (class [Agent]) that decide an agent's evaluation, memory
    and response decision, with the properties the specification states
    about them.

    Conventions of the embedding.
    - JavaScript numbers that take part in fractional arithmetic
      (entanglement, trust, evaluation weights, probabilities) are IEEE-754
      binary64 values: Rocq's primitive [float], whose operations are the
      ones the JavaScript engine performs.  Counters that only ever count
      up by one from zero ([sequenceCounter], [interactions]) are [nat].
    - Strings are sequences of code units below 256 (the Latin-1 range);
      [toLowerCase] and the whitespace class of [/\s+/] are the JavaScript
      ones restricted to that range.
    - A JavaScript [Map] that is iterated is an insertion-ordered association
      list ([JsMap]); a [Map] that is only looked up and updated is a [gmap].
    - [undefined] and [null] are [None]. *)

From Stdlib Require Import Floats ZArith NArith Ascii String.
From stdpp Require Import base option list gmap strings pretty.

#[local] Set Warnings "-inexact-float".
#[local] Open Scope string_scope.
#[local] Open Scope list_scope.

(* ================================================================== *)
(** ** JavaScript strings *)

Module JsString.

Definition code (c : ascii) : N := N_of_ascii c.

(** [String.prototype.toLowerCase] on one code unit below 256:
    A-Z and the accented capitals U+00C0..U+00DE (except the
    multiplication sign U+00D7) move up by 32. *)
Definition lower_char (c : ascii) : ascii :=
  let n := code c in
  if ((65 <=? n) && (n <=? 90))%N then ascii_of_N (n + 32)
  else if ((192 <=? n) && (n <=? 222) && negb (n =? 215))%N
       then ascii_of_N (n + 32)
  else c.

Fixpoint toLowerCase (s : string) : string :=
  match s with
  | EmptyString => EmptyString
  | String c s' => String (lower_char c) (toLowerCase s')
  end.

(** The class [\s] below 256: TAB, LF, VT, FF, CR, SPACE, NBSP. *)
Definition is_space (c : ascii) : bool :=
  let n := code c in
  (((9 <=? n) && (n <=? 13)) || (n =? 32) || (n =? 160))%N.

(** [s.split(/\s+/)]: the pieces between maximal runs of white space,
    empty pieces at either end included.  [cur] is the piece being read,
    [in_run] tells that the previous code unit was white space. *)
Fixpoint split_go (cur : string) (in_run : bool) (s : string) : list string :=
  match s with
  | EmptyString => [cur]
  | String c s' =>
      if is_space c then
        if in_run then split_go EmptyString true s'
        else cur :: split_go EmptyString true s'
      else split_go (cur +:+ String c EmptyString) false s'
  end.

Definition split_ws (s : string) : list string := split_go EmptyString false s.

Fixpoint startsWith (s p : string) : bool :=
  match p, s with
  | EmptyString, _ => true
  | String _ _, EmptyString => false
  | String a p', String b s' => Ascii.eqb a b && startsWith s' p'
  end.

(** [s.includes(sub)] *)
Fixpoint includes (s sub : string) : bool :=
  startsWith s sub ||
  match s with
  | EmptyString => false
  | String _ s' => includes s' sub
  end.

(** [s.substring(0, n)] *)
Fixpoint take (n : nat) (s : string) : string :=
  match n, s with
  | S n', String c s' => String c (take n' s')
  | _, _ => EmptyString
  end.

(** Truthiness of a possibly absent string: [undefined], [null] and the
    empty string are falsy. *)
Definition truthy (o : option string) : bool :=
  match o with
  | Some (String _ _) => true
  | _ => false
  end.

End JsString.

(* ================================================================== *)
(** ** JavaScript numbers *)

Module JsNum.

#[local] Open Scope float_scope.

(** [Math.min(a, b)] and [Math.max(a, b)]: NaN is contagious, and of the
    two zeros the negative one is the smaller. *)
Definition Math_min (a b : float) : float :=
  if is_nan a || is_nan b then nan
  else if a <? b then a
  else if b <? a then b
  else if get_sign a then a else b.

Definition Math_max (a b : float) : float :=
  if is_nan a || is_nan b then nan
  else if b <? a then a
  else if a <? b then b
  else if get_sign a then b else a.

(** [x > y] *)
Definition gt (x y : float) : bool := y <? x.

(** Truthiness of a number: 0, -0 and NaN are falsy. *)
Definition truthy (x : float) : bool := negb (is_zero x || is_nan x).

End JsNum.

(* ================================================================== *)
(** ** Insertion-ordered maps (the iterated [Map] of inhabitants) *)

Module JsMap.
Section Ordered.
Context {V : Type}.

Definition t := list (string * V).

Fixpoint get (k : string) (m : list (string * V)) : option V :=
  match m with
  | [] => None
  | (k', v) :: m' => if String.eqb k' k then Some v else get k m'
  end.

Definition has (k : string) (m : list (string * V)) : bool :=
  match get k m with Some _ => true | None => false end.

(** [m.set(k, v)]: an existing key keeps its place, a new key goes last. *)
Fixpoint set (k : string) (v : V) (m : list (string * V)) : list (string * V) :=
  match m with
  | [] => [(k, v)]
  | (k', v') :: m' =>
      if String.eqb k' k then (k, v) :: m' else (k', v') :: set k v m'
  end.

(** [m.delete(k)] *)
Fixpoint delete (k : string) (m : list (string * V)) : list (string * V) :=
  match m with
  | [] => []
  | (k', v') :: m' =>
      if String.eqb k' k then m' else (k', v') :: delete k m'
  end.

Definition keys (m : list (string * V)) : list string := map fst m.

(** The keys of a [Map] are pairwise distinct. *)
Definition wf (m : list (string * V)) : Prop := NoDup (keys m).
End Ordered.
End JsMap.

(* ================================================================== *)
(** ** JavaScript arrays *)

Module JsArray.

(** [l.slice(-count)]: the last [count] elements, all of them when there
    are fewer; [slice(-0)] is [slice(0)], the whole array. *)
Definition slice_last {A : Type} (count : nat) (l : list A) : list A :=
  match count with
  | O => l
  | _ => skipn (length l - count) l
  end.

(** [l.slice(0, count)] *)
Definition slice_first {A : Type} (count : nat) (l : list A) : list A :=
  firstn count l.

End JsArray.

(* ================================================================== *)
(** ** The data model of the world *)

(** An inhabitant as the world sees it: [id], [name], [kind]. *)
Module Inhabitant.
Record t := mk { id : string; name : string; kind : string }.
End Inhabitant.

(** The opaque metadata bag of a message. *)
Definition Meta := list (string * string).

Inductive Classification := fork | perturbation.

(** An event of world memory: [{ id, sequence, timestamp, ...data }], and
    the [classification] property that [processMessage] assigns to a message
    event after it was recorded. *)
Module Event.

Inductive Data :=
| EnterData (inhabitantId inhabitantName inhabitantKind : string)
| LeaveData (inhabitantId inhabitantName : string)
| MessageData (from fromName to : string) (content : option string)
              (replyTo : option string) (meta : Meta).

Record t := mk {
  id : string;
  sequence : nat;
  timestamp : Z;
  data : Data;
  classification : option Classification;
}.

(** [e.type === 'message'] *)
Definition is_message (e : t) : bool :=
  match data e with MessageData _ _ _ _ _ _ => true | _ => false end.

(** Property reads; a property the event does not have is [undefined]. *)
Definition from (e : t) : option string :=
  match data e with MessageData f _ _ _ _ _ => Some f | _ => None end.

Definition fromName (e : t) : option string :=
  match data e with MessageData _ n _ _ _ _ => Some n | _ => None end.

Definition to (e : t) : option string :=
  match data e with MessageData _ _ t _ _ _ => Some t | _ => None end.

Definition content (e : t) : option string :=
  match data e with MessageData _ _ _ c _ _ => c | _ => None end.

(** [e.classification = c] *)
Definition set_classification (c : Classification) (e : t) : t :=
  mk (id e) (sequence e) (timestamp e) (data e) (Some c).

End Event.

Inductive ModelTier := default_tier | non_default.

(** A directed edge of the relationship graph. *)
Record Relationship := mkRelationship {
  model : ModelTier;
  entanglement : float;
  interactions : nat;
  lastInteraction : option nat;
}.

(** What [emit] hands to the handlers, by event name:
    ['inhabitant:enter'] gets [{ inhabitant, event }], ['inhabitant:leave']
    gets [{ inhabitantId, event }], ['message'] gets the message event. *)
Inductive Emitted :=
| EnterPayload (inhabitant : Inhabitant.t) (event : Event.t)
| LeavePayload (inhabitantId : string) (event : Event.t)
| MessagePayload (message : Event.t).

(** How a call ends: it returns, an exception propagates out of a handler,
    or the nesting of handlers exceeds the budget given to the run. *)
Inductive Outcome (A : Type) :=
| Returned (a : A)
| Threw
| Diverged.
Arguments Returned {A} a.
Arguments Threw {A}.
Arguments Diverged {A}.

(* ================================================================== *)
(** ** The world engine *)

Module World.

Record t := mk {
  memory : list Event.t;
  sequenceCounter : nat;
  inhabitants : list (string * Inhabitant.t);
  relationships : gmap string (gmap string Relationship);
}.

(** [new World()] *)
Definition empty : t := mk [] 0 [] ∅.

(** A subscribed handler is code that runs against the world: it may read
    the state, call [enter], [leave] and [processMessage] (reentrantly,
    seeing each call's return value), return, or throw. *)
Inductive Prog :=
| Done
| Throw
| GetState (k : t -> Prog)
| CallEnter (inhabitant : Inhabitant.t) (k : Event.t -> Prog)
| CallLeave (inhabitantId : string) (k : option Event.t -> Prog)
| CallProcessMessage (from to : string) (content replyTo : option string)
                     (meta : Meta) (k : option Event.t -> Prog).

Definition Handler := Emitted -> Prog.

(** [this.listeners]: event name to the handlers in registration order. *)
Definition Listeners := gmap string (list Handler).

(** [on(event, callback)] *)
Definition on (event : string) (callback : Handler) (ls : Listeners) : Listeners :=
  let ls1 := match ls !! event with
             | None => <[event := []]> ls
             | Some _ => ls
             end in
  <[event := default [] (ls1 !! event) ++ [callback]]> ls1.

Definition bind {A B : Type} (r : t * Outcome A) (k : A -> t -> t * Outcome B)
  : t * Outcome B :=
  match r with
  | (w, Returned a) => k a w
  | (w, Threw) => (w, Threw)
  | (w, Diverged) => (w, Diverged)
  end.

(** The loop of [emit]: [for (const handler of handlers) handler(data)]. *)
Fixpoint emit_loop (call : Prog -> t -> t * Outcome unit)
         (handlers : list Handler) (data : Emitted) (w : t) : t * Outcome unit :=
  match handlers with
  | [] => (w, Returned tt)
  | handler :: rest =>
      bind (call (handler data) w) (fun _ => emit_loop call rest data)
  end.

(** [x || null] for a string [x] *)
Definition or_null (o : option string) : option string :=
  if JsString.truthy o then o else None.

(** [.filter(Boolean)] on an array of strings and nulls *)
Definition filter_Boolean (l : list (option string)) : list string :=
  omap or_null l.

Definition extractTopic (content : option string) : option string :=
  match content with
  | Some c =>
      if negb (JsString.truthy content) then None
      else
        let words := List.filter (fun w => Nat.ltb 4 (String.length w))
                       (JsString.split_ws (JsString.toLowerCase c)) in
        or_null (head words)
  | None => None
  end.

Definition getRecentMessages (count : nat) (w : t) : list Event.t :=
  JsArray.slice_last count (List.filter Event.is_message (memory w)).

Definition classifyExchange (message : Event.t) (w : t) : Classification :=
  let recentMessages := getRecentMessages 20 w in
  let recentTopics : gset string :=
    list_to_set (filter_Boolean
                   (map (fun m => extractTopic (Event.content m)) recentMessages)) in
  let currentTopic := extractTopic (Event.content message) in
  match currentTopic with
  | Some topic =>
      if JsString.truthy currentTopic && negb (bool_decide (topic ∈ recentTopics))
      then fork else perturbation
  | None => perturbation
  end.

Definition default_model : Relationship :=
  mkRelationship default_tier 0%float 0 None.

(** [this.relationships.get(a).set(b, rel)] *)
Definition set_edge (a b : string) (rel : Relationship)
           (rels : gmap string (gmap string Relationship))
  : gmap string (gmap string Relationship) :=
  match rels !! a with
  | Some m => <[a := <[b := rel]> m]> rels
  | None => rels
  end.

(** The guarded in-place update of an edge:
    [if (relationships.has(a)) { const rel = relationships.get(a).get(b);
    if (rel) { ...mutate rel... } }]. *)
Definition update_edge (f : Relationship -> Relationship) (a b : string)
           (rels : gmap string (gmap string Relationship))
  : gmap string (gmap string Relationship) :=
  match rels !! a with
  | Some m =>
      match m !! b with
      | Some rel => <[a := <[b := f rel]> m]> rels
      | None => rels
      end
  | None => rels
  end.

(** The body run on a broadcast edge. *)
Definition broadcast_touch (seq : nat) (rel : Relationship) : Relationship :=
  let n := S (interactions rel) in
  mkRelationship (if Nat.ltb 2 n then non_default else model rel)
                 (entanglement rel) n (Some seq).

(** The body run on an edge of a direct message, [inc] being 0.1 for the
    sender's edge and 0.05 for the addressee's. *)
Definition direct_touch (inc : float) (seq : nat) (rel : Relationship) : Relationship :=
  let n := S (interactions rel) in
  mkRelationship (if Nat.ltb 1 n then non_default else model rel)
                 (JsNum.Math_min 1 (entanglement rel + inc))
                 n (Some seq).

Definition updateRelationship (fromId toId : string) (message : Event.t) (w : t) : t :=
  let seq := Event.sequence message in
  let rels :=
    if String.eqb toId "world" then
      fold_left
        (fun rels otherId =>
           if negb (String.eqb otherId fromId)
           then update_edge (broadcast_touch seq) fromId otherId rels
           else rels)
        (JsMap.keys (inhabitants w)) (relationships w)
    else
      update_edge (direct_touch 0.05 seq) toId fromId
        (update_edge (direct_touch 0.1 seq) fromId toId (relationships w)) in
  mk (memory w) (sequenceCounter w) (inhabitants w) rels.

(** One turn of the loop of [enter] over the inhabitants. *)
Definition enter_step (newId : string)
           (rels : gmap string (gmap string Relationship)) (otherId : string)
  : gmap string (gmap string Relationship) :=
  if negb (String.eqb otherId newId) then
    let rels1 := set_edge newId otherId default_model rels in
    match rels1 !! otherId with
    | Some _ => set_edge otherId newId default_model rels1
    | None => rels1
    end
  else rels.

Section Engine.
(** The host: the identifier and the clock reading drawn while the
    [n]-th event is recorded. *)
Variable uuidv4 : nat -> string.
Variable Date_now : nat -> Z.
Variable listeners : Listeners.

Definition recordEvent (data : Event.Data) (w : t) : t * Event.t :=
  let counter := S (sequenceCounter w) in
  let event := Event.mk (uuidv4 counter) counter (Date_now counter) data None in
  (mk (memory w ++ [event]) counter (inhabitants w) (relationships w), event).

(** [enter] up to its [emit]. *)
Definition enter_core (inhabitant : Inhabitant.t) (w : t) : t * Event.t :=
  let newId := Inhabitant.id inhabitant in
  let inh := JsMap.set newId inhabitant (inhabitants w) in
  let rels := fold_left (enter_step newId) (JsMap.keys inh)
                        (<[newId := ∅]> (relationships w)) in
  recordEvent
    (Event.EnterData newId (Inhabitant.name inhabitant) (Inhabitant.kind inhabitant))
    (mk (memory w) (sequenceCounter w) inh rels).

(** [leave] up to its [emit]; [None] is the early [return null]. *)
Definition leave_core (inhabitantId : string) (w : t) : option (t * Event.t) :=
  match JsMap.get inhabitantId (inhabitants w) with
  | None => None
  | Some inhabitant =>
      let '(w1, event) :=
        recordEvent (Event.LeaveData inhabitantId (Inhabitant.name inhabitant)) w in
      Some (mk (memory w1) (sequenceCounter w1)
               (JsMap.delete inhabitantId (inhabitants w1)) (relationships w1),
            event)
  end.

(** [processMessage] up to its [emit]: the message is recorded, the
    relationships are updated, and the classification is assigned to the
    recorded object, which is the last one of memory. *)
Definition processMessage_core (from to : string) (content replyTo : option string)
           (meta : Meta) (w : t) : option (t * Event.t) :=
  match JsMap.get from (inhabitants w) with
  | None => None
  | Some sender =>
      let '(w1, message) :=
        recordEvent
          (Event.MessageData from (Inhabitant.name sender) to content replyTo meta) w in
      let w2 := updateRelationship from to message w1 in
      let message' :=
        Event.set_classification (classifyExchange message w2) message in
      Some (mk (<[pred (length (memory w2)) := message']> (memory w2))
               (sequenceCounter w2) (inhabitants w2) (relationships w2),
            message')
  end.

Section WithEmit.
(** The three operations over any implementation of [emit]. *)
Variable emit : string -> Emitted -> t -> t * Outcome unit.

Definition enter_with (inhabitant : Inhabitant.t) (w : t) : t * Outcome Event.t :=
  let '(w1, event) := enter_core inhabitant w in
  bind (emit "inhabitant:enter" (EnterPayload inhabitant event) w1)
       (fun _ w2 => (w2, Returned event)).

Definition leave_with (inhabitantId : string) (w : t)
  : t * Outcome (option Event.t) :=
  match leave_core inhabitantId w with
  | None => (w, Returned None)
  | Some (w1, event) =>
      bind (emit "inhabitant:leave" (LeavePayload inhabitantId event) w1)
           (fun _ w2 => (w2, Returned (Some event)))
  end.

Definition processMessage_with (from to : string) (content replyTo : option string)
           (meta : Meta) (w : t) : t * Outcome (option Event.t) :=
  match processMessage_core from to content replyTo meta w with
  | None => (w, Returned None)
  | Some (w1, message) =>
      bind (emit "message" (MessagePayload message) w1)
           (fun _ w2 => (w2, Returned (Some message)))
  end.
End WithEmit.

Definition emit_with (call : Prog -> t -> t * Outcome unit)
           (event : string) (data : Emitted) (w : t) : t * Outcome unit :=
  emit_loop call (default [] (listeners !! event)) data w.

(** Running handler code; [fuel] bounds the number of nested steps a
    handler may take, and the state reached when it runs out is the
    state of the world at the moment the host gives up. *)
Fixpoint run (fuel : nat) (p : Prog) (w : t) : t * Outcome unit :=
  match p, fuel with
  | Done, _ => (w, Returned tt)
  | Throw, _ => (w, Threw)
  | _, O => (w, Diverged)
  | GetState k, S fuel' => run fuel' (k w) w
  | CallEnter i k, S fuel' =>
      bind (enter_with (emit_with (run fuel')) i w) (fun ev => run fuel' (k ev))
  | CallLeave i k, S fuel' =>
      bind (leave_with (emit_with (run fuel')) i w) (fun ev => run fuel' (k ev))
  | CallProcessMessage f t c r m k, S fuel' =>
      bind (processMessage_with (emit_with (run fuel')) f t c r m w)
           (fun ev => run fuel' (k ev))
  end.

Definition emit (fuel : nat) : string -> Emitted -> t -> t * Outcome unit :=
  emit_with (run fuel).

Definition enter (fuel : nat) := enter_with (emit fuel).
Definition leave (fuel : nat) := leave_with (emit fuel).
Definition processMessage (fuel : nat) := processMessage_with (emit fuel).

(** A call made by the host. *)
Inductive Op :=
| OpEnter (inhabitant : Inhabitant.t)
| OpLeave (inhabitantId : string)
| OpProcessMessage (from to : string) (content replyTo : option string) (meta : Meta).

Definition step (fuel : nat) (op : Op) (w : t) : t :=
  match op with
  | OpEnter i => fst (enter fuel i w)
  | OpLeave i => fst (leave fuel i w)
  | OpProcessMessage f t c r m => fst (processMessage fuel f t c r m w)
  end.

(** A sequence of host calls, each on the state the previous one left. *)
Definition steps (fuel : nat) (ops : list Op) (w : t) : t :=
  fold_left (fun w op => step fuel op w) ops w.

End Engine.

(** [getInhabitants()]: the values of the map, in insertion order. *)
Definition getInhabitants (w : t) : list Inhabitant.t := map snd (inhabitants w).

(** The object [getState()] returns. *)
Module State.
Record t := mk {
  inhabitantCount : nat;
  messageCount : nat;
  totalEvents : nat;
  inhabitants : list Inhabitant.t;
}.
End State.

Definition getState (w : t) : State.t :=
  State.mk (length (inhabitants w))
           (length (List.filter Event.is_message (memory w)))
           (length (memory w))
           (map (fun i => Inhabitant.mk (Inhabitant.id i) (Inhabitant.name i)
                                        (Inhabitant.kind i))
                (getInhabitants w)).

End World.

(* ================================================================== *)
(** ** The agent engine *)

Module Agent.

(** An agent's model of another inhabitant. *)
Module ModelOfOther.
Record t := mk {
  name : option string;
  style : string;
  trust : float;
  messageCount : nat;
  theirModelOfMe_trust : float;
  theirModelOfMe_interest : float;
}.
End ModelOfOther.

(** An entry of the experience log. *)
Module Experience.
Record t := mk {
  sequence : nat;
  from : option string;
  fromName : option string;
  summary : string;
  evaluation : float;
  timestamp : Z;
}.
End Experience.

(** The part of [world.getState()] an agent reads. *)
Record WorldState := mkWorldState { inhabitantCount : float }.

(** The state of an agent that evaluation, memory and the decision to
    respond read or write. *)
Record t := mk {
  id : string;
  name : string;
  interests : list string;
  evaluations : gmap string float;
  models : gmap string ModelOfOther.t;
  experienceLog : list Experience.t;
  conversationTopics : list string;
  engagement : float;
  silenceTicks : float;
}.

(** [x === s] for a property [x] that may be undefined. *)
Definition strict_eq (x : option string) (s : string) : bool :=
  match x with
  | Some v => String.eqb v s
  | None => false
  end.

(** [content || ''] *)
Definition or_empty (content : option string) : string :=
  match content with
  | Some c => c
  | None => ""
  end.

#[local] Open Scope float_scope.

Definition evaluate (message : Event.t) (a : t) : t * float :=
  let weight := 0 in
  let weight :=
    if strict_eq (Event.to message) (id a) then weight + 0.6
    else if strict_eq (Event.to message) "world" then weight + 0.2
    else weight in
  let content := JsString.toLowerCase (or_empty (Event.content message)) in
  let weight :=
    if existsb (fun interest =>
                  JsString.includes content (JsString.toLowerCase interest))
               (interests a)
    then weight + 0.3 else weight in
  let model := Event.from message ≫= (fun sender => models a !! sender) in
  let weight :=
    match model with
    | Some m => if JsNum.gt (ModelOfOther.trust m) 0.5 then weight + 0.15 else weight
    | None => weight
    end in
  let weight :=
    if JsString.includes content "?" then weight + 0.15 else weight in
  let weight := JsNum.Math_min 1 (JsNum.Math_max (-1) weight) in
  (mk (id a) (name a) (interests a)
      (<[Event.id message := weight]> (evaluations a))
      (models a) (experienceLog a) (conversationTopics a)
      (engagement a) (silenceTicks a),
   weight).

Definition summarize (content : option string) : string :=
  match content with
  | Some c =>
      if negb (JsString.truthy content) then ""
      else if Nat.leb (String.length c) 80 then c
      else JsString.take 77 c +:+ "..."
  | None => ""
  end.

Definition extractConversationTopic (content : option string) : option string :=
  match content with
  | Some c =>
      if negb (JsString.truthy content) then None
      else
        let words := List.filter (fun w => Nat.ltb 5 (String.length w))
                       (JsString.split_ws (JsString.toLowerCase c)) in
        World.or_null (head words)
  | None => None
  end.

Definition integrateExperience (message : Event.t) (evaluation : float) (a : t) : t :=
  let log :=
    if JsNum.gt evaluation 0.3 then
      experienceLog a ++
        [Experience.mk (Event.sequence message) (Event.from message)
           (Event.fromName message) (summarize (Event.content message))
           evaluation (Event.timestamp message)]
    else experienceLog a in
  let log :=
    if Nat.ltb 100 (length log)
    then JsArray.slice_first 10 log ++ JsArray.slice_last 80 log
    else log in
  let topics :=
    match extractConversationTopic (Event.content message) with
    | Some topic =>
        let topics := conversationTopics a ++ [topic] in
        if Nat.ltb 20 (length topics) then JsArray.slice_last 20 topics else topics
    | None => conversationTopics a
    end in
  mk (id a) (name a) (interests a) (evaluations a) (models a)
     log topics (engagement a) (silenceTicks a).

(** [updateModel(inhabitantId, message)].  The model record holds the
    fields that are read somewhere; [lastSeen], [beliefs] and
    [predictedValues], which are only ever written, are not part of it. *)
Definition updateModel (inhabitantId : string) (message : Event.t) (a : t) : t :=
  let model :=
    match models a !! inhabitantId with
    | Some m => m
    | None => ModelOfOther.mk (Event.fromName message) "unknown" 0.5 0 0.5 0.5
    end in
  let messageCount := S (ModelOfOther.messageCount model) in
  let content := or_empty (Event.content message) in
  let style :=
    if JsString.includes content "?" then "inquisitive"
    else if Nat.ltb 200 (String.length content) then "verbose"
    else if Nat.ltb (String.length content) 30 then "terse"
    else ModelOfOther.style model in
  let trust := JsNum.Math_min 1 (ModelOfOther.trust model + 0.02) in
  let interest :=
    if strict_eq (Event.to message) (id a)
    then JsNum.Math_min 1 (ModelOfOther.theirModelOfMe_interest model + 0.1)
    else ModelOfOther.theirModelOfMe_interest model in
  mk (id a) (name a) (interests a) (evaluations a)
     (<[inhabitantId :=
          ModelOfOther.mk (ModelOfOther.name model) style trust messageCount
                          (ModelOfOther.theirModelOfMe_trust model) interest]>
        (models a))
     (experienceLog a) (conversationTopics a) (engagement a) (silenceTicks a).

Section Decision.
(** [Math.log2], a function of the host. *)
Variable Math_log2 : float -> float.

(** [random] is the value [Math.random()] returns if it is called. *)
Definition shouldRespond (message : Event.t) (evaluation : float)
           (worldState : WorldState) (random : float) (a : t) : bool :=
  if strict_eq (Event.to message) (id a) then true
  else if strict_eq (Event.from message) (id a) then false
  else
    let responseProbability := evaluation * 0.5 in
    let responseProbability :=
      responseProbability + JsNum.Math_min 0.3 (silenceTicks a * 0.05) in
    let inhabitantCount :=
      if JsNum.truthy (inhabitantCount worldState)
      then inhabitantCount worldState else 1 in
    let responseProbability :=
      responseProbability / Math_log2 (inhabitantCount + 1) in
    let responseProbability := responseProbability * engagement a in
    random <? responseProbability.
End Decision.

End Agent.

(* ================================================================== *)
(** * Vocabulary of the statements *)

Section EvaluateVocabulary.
#[local] Open Scope float_scope.

(** The weight before clamping, as a function of the five tests. *)
Definition raw_weight (direct broadcast interest trusted question : bool) : float :=
let weight := 0 in
let weight := if direct then weight + 0.6
              else if broadcast then weight + 0.2 else weight in
let weight := if interest then weight + 0.3 else weight in
let weight := if trusted then weight + 0.15 else weight in
let weight := if question then weight + 0.15 else weight in
weight.

Definition clamp (weight : float) : float :=
JsNum.Math_min 1 (JsNum.Math_max (-1) weight).

Definition trusted (message : Event.t) (a : Agent.t) : bool :=
match Event.from message ≫= (fun sender => Agent.models a !! sender) with
| Some m => JsNum.gt (Agent.ModelOfOther.trust m) 0.5
| None => false
end.

End EvaluateVocabulary.

(** The record [integrateExperience] pushes for a salient message. *)
Definition experience_of (message : Event.t) (evaluation : float) : Agent.Experience.t :=
  Agent.Experience.mk (Event.sequence message) (Event.from message)
    (Event.fromName message) (Agent.summarize (Event.content message))
    evaluation (Event.timestamp message).

(** [f] keeps the property [P] of the state. *)
Definition keeps (P : World.t -> Prop) {B : Type}
           (f : World.t -> World.t * Outcome B) : Prop :=
  forall w, P w -> P (fst (f w)).

Section HostVocabulary.
Variable uuidv4 : nat -> string.
Variable Date_now : nat -> Z.

(** The event [recordEvent] builds in state [w] for [data]. *)
Definition fresh_event (data : Event.Data) (w : World.t) : Event.t :=
let counter := S (World.sequenceCounter w) in
Event.mk (uuidv4 counter) counter (Date_now counter) data None.

End HostVocabulary.

(** The counter is the number of recorded events, and the [i]-th recorded
    event carries sequence number [i]. *)
Definition sequenced (w : World.t) : Prop :=
  World.sequenceCounter w = length (World.memory w) /\
  map Event.sequence (World.memory w) = seq 1 (length (World.memory w)).

(** [relationships.get(a)?.get(b)] *)
Definition lookup_edge (rels : gmap string (gmap string Relationship))
           (a b : string) : option Relationship :=
  rels !! a ≫= (fun m => m !! b).

(** The loop of a broadcast from [f] with sequence number [n]. *)
Definition broadcast_loop (n : nat) (f : string) (keys : list string)
           (rels : gmap string (gmap string Relationship))
  : gmap string (gmap string Relationship) :=
  fold_left
    (fun rels otherId =>
       if negb (String.eqb otherId f)
       then World.update_edge (World.broadcast_touch n) f otherId rels
       else rels)
    keys rels.

(** Handlers that do nothing to the world while they run (an observer, or
    one that only schedules work for later, as the server's does). *)
Definition quiet (ls : World.Listeners) : Prop :=
  forall ev hs, ls !! ev = Some hs -> forall h d, h ∈ hs -> h d = World.Done.

(** An id the relationship graph knows nothing of: it is not the broadcast
    target, it has no map of its own and no edge points to it. *)
Definition unknown_id (w : World.t) (t : string) : Prop :=
  t ≠ "world" /\
  World.relationships w !! t = None /\
  forall a, lookup_edge (World.relationships w) a t = None.

(** The edges after the loop of [enter]: the newcomer and every listed
    inhabitant that has a map get default edges to each other; all other
    edges are as before. *)
Definition linked_by_enter (newId : string) (keys : list string)
           (rels : gmap string (gmap string Relationship)) (a b : string) : Prop :=
  (a = newId /\ b ∈ keys /\ b ≠ newId /\ is_Some (rels !! newId)) \/
  (b = newId /\ a ∈ keys /\ a ≠ newId /\ is_Some (rels !! a)).

(** [t] entered the world at some time: memory holds an enter event of it. *)
Definition entered (w : World.t) (t : string) : Prop :=
  exists e n k, e ∈ World.memory w /\ Event.data e = Event.EnterData t n k.

(** Every active inhabitant has a map of edges, and the graph only speaks
    of ids that entered: every map belongs to one, every edge points to
    one. *)
Definition graph_known (w : World.t) : Prop :=
  (forall t, t ∈ JsMap.keys (World.inhabitants w) ->
             is_Some (World.relationships w !! t)) /\
  (forall t, is_Some (World.relationships w !! t) -> entered w t) /\
  (forall a t, is_Some (lookup_edge (World.relationships w) a t) -> entered w t).

Ltac split_decides :=
  repeat match goal with
         | |- context [decide ?P] => destruct (decide P)
         end.

(* ================================================================== *)
(** * A concrete agent and a concrete world *)

Section ExampleAgents.
#[local] Open Scope float_scope.

Definition vera : Agent.t :=
Agent.mk "vera" "Vera" ["knowledge"; "truth"]
         ∅ {[ "human-1" := Agent.ModelOfOther.mk (Some "Ada") "terse" 0.52 1 0.5 0.5 ]}
         [] [] 0.7 0.

Definition question_for_vera : Event.t :=
Event.mk "evt-7" 7 1700000000000
         (Event.MessageData "human-1" "Ada" "vera"
            (Some "What is Truth, really?") None [])
         (Some perturbation).

Definition note_to_self : Event.t :=
Event.mk "evt-9" 9 1700000000500
         (Event.MessageData "vera" "Vera" "vera" (Some "Remember this.") None [])
         (Some perturbation).

Definition broadcast_by_vera : Event.t :=
Event.mk "evt-10" 10 1700000000900
         (Event.MessageData "vera" "Vera" "world" (Some "Remember this.") None [])
         (Some perturbation).

End ExampleAgents.

(** An experience log of [n] entries, the [i]-th one of sequence [i]. *)
Definition numbered_log (n : nat) : list Agent.Experience.t :=
  map (fun i => Agent.Experience.mk i (Some "human-1") (Some "Ada") "noted" 0.45%float 0)
      (seq 1 n).

Definition veteran : Agent.t :=
  Agent.mk "vera" "Vera" ["knowledge"; "truth"] ∅ ∅ (numbered_log 100) [] 0.7%float 0%float.

Definition message_101 : Event.t :=
  Event.mk "evt-101" 101 0
           (Event.MessageData "human-1" "Ada" "vera" (Some "noted") None [])
           (Some perturbation).

Section ExampleWorld.
#[local] Open Scope Z_scope.

Definition demo_uuidv4 (n : nat) : string := "evt-" +:+ pretty n.

Definition demo_Date_now (n : nat) : Z := 1700000000000 + 250 * Z.of_nat n.

Definition ada : Inhabitant.t := Inhabitant.mk "human-1" "Ada" "human".

Definition vera_inhabitant : Inhabitant.t := Inhabitant.mk "vera" "Vera" "agent".

(** A handler in the manner of the server's: it looks at the message and
  leaves the world alone. *)
Definition observer : World.Listeners :=
{[ "message" := [fun _ : Emitted => World.Done] ]}.

(** A handler that answers every "ping" on the spot, as its addressee,
  by a call of [processMessage] from inside the emission. *)
Definition echo : World.Handler :=
fun d =>
  match d with
  | MessagePayload m =>
      match Event.content m, Event.to m with
      | Some "ping"%string, Some addressee =>
          World.CallProcessMessage addressee "world" (Some "pong"%string)
                                   (Some (Event.id m)) [] (fun _ => World.Done)
      | _, _ => World.Done
      end
  | _ => World.Done
  end.

Definition echoing : World.Listeners := World.on "message" echo ∅.

(** The world after Ada and Vera entered. *)
Definition two_inhabitants (ls : World.Listeners) : World.t :=
World.steps demo_uuidv4 demo_Date_now ls 3
            [World.OpEnter ada; World.OpEnter vera_inhabitant] World.empty.

End ExampleWorld.

(* ================================================================== *)
(** * Vocabulary and examples of the further properties *)

(** No edge from an id to itself, and no entanglement above 1. *)
Definition edges_sane (w : World.t) : Prop :=
  forall a b r,
    lookup_edge (World.relationships w) a b = Some r ->
    a ≠ b /\ JsNum.gt (entanglement r) 1 = false.

(** Ada writes to Vera [n] times in a row. *)
Definition ada_writes (n : nat) : list World.Op :=
  repeat (World.OpProcessMessage "human-1" "vera" (Some "Still there?") None []) n.

(** The world after Ada and Vera entered and Ada wrote to Vera 12 times. *)
Definition insistent_world : World.t :=
  World.steps demo_uuidv4 demo_Date_now observer 0
              ([World.OpEnter ada; World.OpEnter vera_inhabitant] ++ ada_writes 12)
              World.empty.

(** A handler that always throws. *)
Definition throwing : World.Listeners :=
  {[ "message" := [fun _ : Emitted => World.Throw] ]}.


(* ================================================================== *)
(** * Properties of the agent engine *)

Section StringFacts.

Lemma startsWith_toLowerCase (s p : string) :
  JsString.startsWith s p = true ->
  JsString.startsWith (JsString.toLowerCase s) (JsString.toLowerCase p) = true.
Proof.
  revert s. induction p as [|a p IH]; intros [|b s]; simpl; try done.
  intros [Hab Hrest]%andb_prop.
  apply Ascii.eqb_eq in Hab. subst b.
  rewrite Ascii.eqb_refl. simpl. by apply IH.
Qed.

(** Lower-casing works code unit by code unit, so it keeps containment:
    a keyword contained in the content as written is found by the
    case-insensitive test of [evaluate]. *)
Lemma includes_toLowerCase (s p : string) :
  JsString.includes s p = true ->
  JsString.includes (JsString.toLowerCase s) (JsString.toLowerCase p) = true.
Proof.
  induction s as [|c s IH]; simpl.
  - rewrite orb_false_r. intros H.
    apply (startsWith_toLowerCase EmptyString) in H. simpl in H.
    by rewrite H.
  - intros [H|H]%orb_prop.
    + apply (startsWith_toLowerCase (String c s)) in H. simpl in H.
      by rewrite H.
    + rewrite (IH H). apply orb_true_r.
Qed.

Lemma strict_eq_same (s : string) : Agent.strict_eq (Some s) s = true.
Proof. simpl. apply String.eqb_refl. Qed.

Lemma strict_eq_true (x : option string) (s : string) :
  Agent.strict_eq x s = true <-> x = Some s.
Proof.
  destruct x as [v|]; simpl; [|split; discriminate].
  rewrite String.eqb_eq. split; congruence.
Qed.

End StringFacts.

Section EvaluateFacts.
#[local] Open Scope float_scope.

Lemma evaluate_weight (message : Event.t) (a : Agent.t) :
  let content := JsString.toLowerCase (Agent.or_empty (Event.content message)) in
  snd (Agent.evaluate message a) =
  clamp (raw_weight
           (Agent.strict_eq (Event.to message) (Agent.id a))
           (Agent.strict_eq (Event.to message) "world")
           (existsb (fun interest =>
                       JsString.includes content (JsString.toLowerCase interest))
                    (Agent.interests a))
           (trusted message a)
           (JsString.includes content "?")).
Proof.
  unfold Agent.evaluate, trusted, raw_weight, clamp. cbn [snd].
  destruct (Event.from message ≫= _) as [mo|]; [|reflexivity].
  destruct (JsNum.gt _ _); reflexivity.
Qed.

Lemma clamp_raw_weight_range (b1 b2 b3 b4 b5 : bool) :
  (-1 <=? clamp (raw_weight b1 b2 b3 b4 b5)) = true /\
  (clamp (raw_weight b1 b2 b3 b4 b5) <=? 1) = true.
Proof. destruct b1, b2, b3, b4, b5; vm_compute; split; reflexivity. Qed.

Lemma evaluate_caches (message : Event.t) (a : Agent.t) :
  Agent.evaluations (fst (Agent.evaluate message a)) !! Event.id message
  = Some (snd (Agent.evaluate message a)).
Proof. unfold Agent.evaluate. cbn [fst snd Agent.evaluations]. apply lookup_insert_eq. Qed.

(** C8. For every agent and every message [evaluate] returns a weight in
    [-1, 1]; and a message addressed to the agent, with a question mark in
    its content, matching one of the agent's interest keywords, from a
    sender the agent models with trust above 0.5, evaluates to exactly 1
    (0.6 + 0.3 + 0.15 + 0.15 clamped). *)
Theorem evaluate_bounds_and_saturation (message : Event.t) (a : Agent.t) :
  ((-1 <=? snd (Agent.evaluate message a)) = true /\
   (snd (Agent.evaluate message a) <=? 1) = true) /\
  (forall (c sender interest : string) (mo : Agent.ModelOfOther.t),
      Event.to message = Some (Agent.id a) ->
      Event.content message = Some c ->
      JsString.includes c "?" = true ->
      In interest (Agent.interests a) ->
      JsString.includes (JsString.toLowerCase c) (JsString.toLowerCase interest) = true ->
      Event.from message = Some sender ->
      Agent.models a !! sender = Some mo ->
      JsNum.gt (Agent.ModelOfOther.trust mo) 0.5 = true ->
      snd (Agent.evaluate message a) = 1).
Proof.
  split.
  - rewrite evaluate_weight. apply clamp_raw_weight_range.
  - intros c sender interest mo Hto Hc Hq Hin Hint Hfrom Hmo Htrust.
    rewrite evaluate_weight. cbn zeta.
    rewrite Hto, strict_eq_same, Hc. cbn [Agent.or_empty].
    replace (existsb _ _) with true.
    2:{ symmetry. apply existsb_exists. exists interest. by split. }
    replace (trusted message a) with true.
    2:{ unfold trusted. rewrite Hfrom. cbn. by rewrite Hmo. }
    replace (JsString.includes (JsString.toLowerCase c) "?") with true.
    2:{ symmetry. apply (includes_toLowerCase c "?" Hq). }
    destruct (Agent.strict_eq (Some (Agent.id a)) "world"); reflexivity.
Qed.

End EvaluateFacts.

Section EvaluateExamples.
#[local] Open Scope float_scope.

Lemma evaluate_bounds_and_saturation_witness :
  snd (Agent.evaluate question_for_vera vera) = 1.
Proof.
  apply (proj2 (evaluate_bounds_and_saturation question_for_vera vera)
               "What is Truth, really?" "human-1" "truth"
               (Agent.ModelOfOther.mk (Some "Ada") "terse" 0.52 1 0.5 0.5)).
  - reflexivity.
  - reflexivity.
  - reflexivity.
  - simpl. auto.
  - reflexivity.
  - reflexivity.
  - reflexivity.
  - reflexivity.
Defined.

End EvaluateExamples.

Section ShouldRespondFacts.
#[local] Open Scope float_scope.
Variable Math_log2 : float -> float.

(** C9. A message whose [to] is the agent's id makes [shouldRespond]
    return true, whatever the evaluation, the engagement, the silence
    counter, the world state and the random draw. *)
Theorem shouldRespond_direct_address
        (a : Agent.t) (message : Event.t) (evaluation : float)
        (worldState : Agent.WorldState) (random : float) :
  Event.to message = Some (Agent.id a) ->
  Agent.shouldRespond Math_log2 message evaluation worldState random a = true.
Proof.
  intros Hto. unfold Agent.shouldRespond.
  by rewrite Hto, strict_eq_same.
Qed.

(** C5, as the code has it. A message whose [from] is the agent's own id
    and whose [to] is not the agent's id makes [shouldRespond] return
    false, whatever the evaluation, the engagement, the silence counter,
    the world state and the random draw. *)
Theorem shouldRespond_own_message
        (a : Agent.t) (message : Event.t) (evaluation : float)
        (worldState : Agent.WorldState) (random : float) :
  Event.from message = Some (Agent.id a) ->
  Event.to message <> Some (Agent.id a) ->
  Agent.shouldRespond Math_log2 message evaluation worldState random a = false.
Proof.
  intros Hfrom Hto. unfold Agent.shouldRespond.
  destruct (Agent.strict_eq (Event.to message) (Agent.id a)) eqn:E.
  - by apply strict_eq_true in E.
  - by rewrite Hfrom, strict_eq_same.
Qed.

End ShouldRespondFacts.

Section ShouldRespondExamples.
#[local] Open Scope float_scope.

Lemma shouldRespond_direct_address_witness :
  Agent.shouldRespond (fun x => x) question_for_vera (-1)
                      (Agent.mkWorldState 4) 0.99 vera = true.
Proof.
  apply (shouldRespond_direct_address (fun x => x) vera question_for_vera).
  reflexivity.
Defined.

Lemma shouldRespond_own_message_witness :
  Agent.shouldRespond (fun x => x) broadcast_by_vera 1
                      (Agent.mkWorldState 4) 0 vera = false.
Proof.
  apply (shouldRespond_own_message (fun x => x) vera broadcast_by_vera).
  - reflexivity.
  - discriminate.
Defined.

(** C5 as stated fails: a message the agent addressed to itself is its own
    message, and [shouldRespond] returns true for it. *)
Lemma shouldRespond_own_message_not_unconditional :
  ~ (forall (Math_log2 : float -> float) (a : Agent.t) (message : Event.t)
            (evaluation : float) (worldState : Agent.WorldState) (random : float),
        Event.from message = Some (Agent.id a) ->
        Agent.shouldRespond Math_log2 message evaluation worldState random a = false).
Proof.
  intros H.
  specialize (H (fun x => x) vera note_to_self 0 (Agent.mkWorldState 1) 0 eq_refl).
  vm_compute in H. discriminate.
Qed.

End ShouldRespondExamples.

Section IntegrateExperienceFacts.

Lemma integrateExperience_log (message : Event.t) (evaluation : float) (a : Agent.t) :
  let pushed := if JsNum.gt evaluation 0.3%float
                then Agent.experienceLog a ++ [experience_of message evaluation]
                else Agent.experienceLog a in
  Agent.experienceLog (Agent.integrateExperience message evaluation a) =
  if Nat.ltb 100 (length pushed)
  then firstn 10 pushed ++ JsArray.slice_last 80 pushed
  else pushed.
Proof. reflexivity. Qed.

(** C2, as the code has it. When the log reaches 101 entries by the push
    of a salient one (evaluation above 0.3), [integrateExperience] keeps
    entries 1-10 and entries 22-101 (the 80 most recent), 90 entries in
    all, and drops entries 11-21. *)
Theorem integrateExperience_compaction
        (message : Event.t) (evaluation : float) (a : Agent.t) :
  length (Agent.experienceLog a) = 100 ->
  JsNum.gt evaluation 0.3%float = true ->
  let log := Agent.experienceLog a ++ [experience_of message evaluation] in
  Agent.experienceLog (Agent.integrateExperience message evaluation a)
  = firstn 10 log ++ skipn 21 log
  /\ length (Agent.experienceLog (Agent.integrateExperience message evaluation a)) = 90.
Proof.
  intros Hlen Hgt log.
  assert (Hlog : length log = 101).
  { unfold log. rewrite length_app, Hlen. reflexivity. }
  assert (Heq : Agent.experienceLog (Agent.integrateExperience message evaluation a)
                = firstn 10 log ++ skipn 21 log).
  { rewrite integrateExperience_log. cbn zeta. rewrite Hgt. fold log.
    unfold JsArray.slice_last. rewrite Hlog. reflexivity. }
  split; [exact Heq|].
  rewrite Heq, length_app, length_firstn, length_skipn, Hlog. reflexivity.
Qed.

Lemma integrateExperience_compaction_witness :
  map Agent.Experience.sequence
      (Agent.experienceLog (Agent.integrateExperience message_101 0.45%float veteran))
  = seq 1 10 ++ seq 22 80.
Proof.
  rewrite (proj1 (integrateExperience_compaction message_101 0.45%float veteran
                    eq_refl eq_refl)).
  reflexivity.
Defined.

(** C2 as stated fails: the log of 101 entries is not cut down to entries
    1-10 and 92-101; entries 22-91 are kept as well. *)
Lemma integrateExperience_keeps_more_than_92_to_101 :
  let log := Agent.experienceLog veteran ++ [experience_of message_101 0.45%float] in
  Agent.experienceLog (Agent.integrateExperience message_101 0.45%float veteran)
  <> firstn 10 log ++ skipn 91 log.
Proof.
  intros log H. apply (f_equal (@length _)) in H.
  vm_compute in H. discriminate.
Qed.

End IntegrateExperienceFacts.

(* ================================================================== *)
(** * Properties of the world engine *)

Section ListFacts.
Context {A : Type}.

Lemma insert_last (l : list A) (x y : A) :
  <[pred (length (l ++ [x])) := y]> (l ++ [x]) = l ++ [y].
Proof.
  rewrite length_app. simpl. rewrite Nat.add_1_r. simpl.
  rewrite insert_app_r_alt by lia. by rewrite Nat.sub_diag.
Qed.

Lemma slice_last_snoc (n : nat) (l : list A) (x : A) :
  exists l', JsArray.slice_last (S n) (l ++ [x]) = l' ++ [x].
Proof.
  unfold JsArray.slice_last. rewrite length_app. simpl.
  exists (skipn (length l + 1 - S n) l).
  rewrite skipn_app.
  replace (length l + 1 - S n - length l) with 0 by lia.
  reflexivity.
Qed.

End ListFacts.

Section Preservation.
Variable uuidv4 : nat -> string.
Variable Date_now : nat -> Z.
Variable listeners : World.Listeners.

(** A property of the state that the three operations keep up to their
    [emit] is kept by whatever the handlers do, to any depth. *)
Variable P : World.t -> Prop.
Hypothesis P_enter :
  forall i w, P w -> P (fst (World.enter_core uuidv4 Date_now i w)).
Hypothesis P_leave :
  forall i w w' e, P w -> World.leave_core uuidv4 Date_now i w = Some (w', e) -> P w'.
Hypothesis P_message :
  forall f t c r m w w' e,
    P w -> World.processMessage_core uuidv4 Date_now f t c r m w = Some (w', e) -> P w'.

Lemma bind_keeps {B C : Type} (f : World.t -> World.t * Outcome B)
      (k : B -> World.t -> World.t * Outcome C) :
  keeps P f -> (forall b, keeps P (k b)) -> keeps P (fun w => World.bind (f w) k).
Proof.
  intros Hf Hk w Hw. specialize (Hf w Hw).
  destruct (f w) as [w1 [b| |]]; simpl in *; auto.
  by apply Hk.
Qed.

Lemma emit_loop_keeps (call : World.Prog -> World.t -> World.t * Outcome unit)
      (handlers : list World.Handler) (data : Emitted) :
  (forall p, keeps P (call p)) -> keeps P (World.emit_loop call handlers data).
Proof.
  intros Hcall. induction handlers as [|h rest IH]; intros w Hw; simpl; [done|].
  apply (bind_keeps (call (h data)) (fun _ => World.emit_loop call rest data)); auto.
Qed.

Section WithEmit.
Variable emit : string -> Emitted -> World.t -> World.t * Outcome unit.
Hypothesis emit_keeps : forall ev d, keeps P (emit ev d).

Lemma enter_with_keeps i : keeps P (World.enter_with uuidv4 Date_now emit i).
Proof.
  intros w Hw. unfold World.enter_with.
  pose proof (P_enter i w Hw) as H1.
  destruct (World.enter_core uuidv4 Date_now i w) as [w1 ev]. simpl in H1.
  apply (bind_keeps (emit _ _) (fun _ w2 => (w2, Returned ev))); auto.
  by intros _ w2 Hw2.
Qed.

Lemma leave_with_keeps i : keeps P (World.leave_with uuidv4 Date_now emit i).
Proof.
  intros w Hw. unfold World.leave_with.
  destruct (World.leave_core uuidv4 Date_now i w) as [[w1 ev]|] eqn:E; [|done].
  apply (bind_keeps (emit _ _) (fun _ w2 => (w2, Returned (Some ev)))); eauto.
  by intros _ w2 Hw2.
Qed.

Lemma processMessage_with_keeps f t c r m :
  keeps P (World.processMessage_with uuidv4 Date_now emit f t c r m).
Proof.
  intros w Hw. unfold World.processMessage_with.
  destruct (World.processMessage_core uuidv4 Date_now f t c r m w)
    as [[w1 ev]|] eqn:E; [|done].
  apply (bind_keeps (emit _ _) (fun _ w2 => (w2, Returned (Some ev)))); eauto.
  by intros _ w2 Hw2.
Qed.
End WithEmit.

Lemma run_keeps (fuel : nat) (p : World.Prog) :
  keeps P (World.run uuidv4 Date_now listeners fuel p).
Proof.
  revert p. induction fuel as [|fuel IH]; intros p w Hw; [by destruct p|].
  assert (Hemit : forall ev d,
             keeps P (World.emit_with listeners
                      (World.run uuidv4 Date_now listeners fuel) ev d)).
  { intros ev d. apply emit_loop_keeps. exact IH. }
  destruct p as [| |k|i k|i k|f t c r m k]; simpl; try done.
  - by apply IH.
  - apply (bind_keeps (World.enter_with uuidv4 Date_now _ i)
                      (fun ev => World.run uuidv4 Date_now listeners fuel (k ev)));
      auto using enter_with_keeps.
  - apply (bind_keeps (World.leave_with uuidv4 Date_now _ i)
                      (fun ev => World.run uuidv4 Date_now listeners fuel (k ev)));
      auto using leave_with_keeps.
  - apply (bind_keeps (World.processMessage_with uuidv4 Date_now _ f t c r m)
                      (fun ev => World.run uuidv4 Date_now listeners fuel (k ev)));
      auto using processMessage_with_keeps.
Qed.

Lemma emit_keeps (fuel : nat) ev d :
  keeps P (World.emit uuidv4 Date_now listeners fuel ev d).
Proof. apply emit_loop_keeps. intros p. apply run_keeps. Qed.

Lemma step_keeps (fuel : nat) (op : World.Op) (w : World.t) :
  P w -> P (World.step uuidv4 Date_now listeners fuel op w).
Proof.
  intros Hw. destruct op; simpl.
  - apply enter_with_keeps; auto using emit_keeps.
  - apply leave_with_keeps; auto using emit_keeps.
  - apply processMessage_with_keeps; auto using emit_keeps.
Qed.

Lemma steps_keeps (fuel : nat) (ops : list World.Op) (w : World.t) :
  P w -> P (World.steps uuidv4 Date_now listeners fuel ops w).
Proof.
  revert w. induction ops as [|op ops IH]; intros w Hw; simpl; [done|].
  apply IH. by apply step_keeps.
Qed.

End Preservation.

Section CoreFacts.
Variable uuidv4 : nat -> string.
Variable Date_now : nat -> Z.

Lemma recordEvent_eq (data : Event.Data) (w : World.t) :
  World.recordEvent uuidv4 Date_now data w =
  (World.mk (World.memory w ++ [fresh_event uuidv4 Date_now data w])
            (S (World.sequenceCounter w))
            (World.inhabitants w) (World.relationships w),
   fresh_event uuidv4 Date_now data w).
Proof. reflexivity. Qed.

Lemma updateRelationship_memory f t m w :
  World.memory (World.updateRelationship f t m w) = World.memory w.
Proof. reflexivity. Qed.

(** What [processMessage] has done when it reaches its [emit]. *)
Lemma processMessage_core_Some f t c r meta w sender :
  JsMap.get f (World.inhabitants w) = Some sender ->
  let m0 := fresh_event uuidv4 Date_now (Event.MessageData f (Inhabitant.name sender) t c r meta) w in
  let w1 := fst (World.recordEvent uuidv4 Date_now (Event.data m0) w) in
  let w2 := World.updateRelationship f t m0 w1 in
  let m := Event.set_classification (World.classifyExchange m0 w2) m0 in
  World.processMessage_core uuidv4 Date_now f t c r meta w =
  Some (World.mk (World.memory w ++ [m]) (S (World.sequenceCounter w))
                 (World.inhabitants w) (World.relationships w2),
        m).
Proof.
  intros Hget. cbn zeta. unfold World.processMessage_core. rewrite Hget.
  rewrite recordEvent_eq. cbn [fst Event.data fresh_event].
  rewrite updateRelationship_memory. cbn [World.memory].
  by rewrite insert_last.
Qed.

Lemma processMessage_core_None f t c r meta w :
  JsMap.get f (World.inhabitants w) = None ->
  World.processMessage_core uuidv4 Date_now f t c r meta w = None.
Proof. intros Hget. unfold World.processMessage_core. by rewrite Hget. Qed.

Lemma processMessage_core_inv f t c r meta w w' m :
  World.processMessage_core uuidv4 Date_now f t c r meta w = Some (w', m) ->
  exists sender cls,
    JsMap.get f (World.inhabitants w) = Some sender /\
    m = Event.mk (uuidv4 (S (World.sequenceCounter w))) (S (World.sequenceCounter w))
                 (Date_now (S (World.sequenceCounter w)))
                 (Event.MessageData f (Inhabitant.name sender) t c r meta)
                 (Some cls) /\
    World.memory w' = World.memory w ++ [m] /\
    World.sequenceCounter w' = S (World.sequenceCounter w) /\
    World.inhabitants w' = World.inhabitants w.
Proof.
  destruct (JsMap.get f (World.inhabitants w)) as [sender|] eqn:Hget.
  - rewrite (processMessage_core_Some _ _ _ _ _ _ _ Hget). cbn zeta.
    intros [= <- <-]. eexists sender, _. repeat split; reflexivity.
  - by rewrite processMessage_core_None.
Qed.

Lemma leave_core_inv i w w' e :
  World.leave_core uuidv4 Date_now i w = Some (w', e) ->
  exists inhabitant,
    JsMap.get i (World.inhabitants w) = Some inhabitant /\
    e = fresh_event uuidv4 Date_now (Event.LeaveData i (Inhabitant.name inhabitant)) w /\
    World.memory w' = World.memory w ++ [e] /\
    World.sequenceCounter w' = S (World.sequenceCounter w) /\
    World.inhabitants w' = JsMap.delete i (World.inhabitants w) /\
    World.relationships w' = World.relationships w.
Proof.
  unfold World.leave_core.
  destruct (JsMap.get i (World.inhabitants w)) as [inhabitant|]; [|done].
  rewrite recordEvent_eq. intros [= <- <-].
  exists inhabitant. repeat split; reflexivity.
Qed.

Lemma enter_core_eq i w :
  World.enter_core uuidv4 Date_now i w =
  let newId := Inhabitant.id i in
  let inh := JsMap.set newId i (World.inhabitants w) in
  let e := fresh_event uuidv4 Date_now
             (Event.EnterData newId (Inhabitant.name i) (Inhabitant.kind i)) w in
  (World.mk (World.memory w ++ [e]) (S (World.sequenceCounter w)) inh
            (fold_left (World.enter_step newId) (JsMap.keys inh)
                       (<[newId := ∅]> (World.relationships w))),
   e).
Proof. reflexivity. Qed.

End CoreFacts.

Section Sequencing.
Variable uuidv4 : nat -> string.
Variable Date_now : nat -> Z.
Variable listeners : World.Listeners.

Lemma sequenced_push (w w' : World.t) (e : Event.t) :
  sequenced w ->
  World.memory w' = World.memory w ++ [e] ->
  World.sequenceCounter w' = S (World.sequenceCounter w) ->
  Event.sequence e = S (World.sequenceCounter w) ->
  sequenced w'.
Proof.
  intros [Hc Hm] Hmem Hcnt Hseq. unfold sequenced.
  rewrite Hmem, Hcnt, length_app, map_app, Hm. simpl.
  rewrite Nat.add_1_r, seq_S, Hseq, Hc. done.
Qed.

Lemma sequenced_empty : sequenced World.empty.
Proof. done. Qed.

Lemma sequenced_run (fuel : nat) (ops : list World.Op) :
  sequenced (World.steps uuidv4 Date_now listeners fuel ops World.empty).
Proof.
  apply steps_keeps; [| | |exact sequenced_empty].
  - intros i w Hw. rewrite enter_core_eq. cbn zeta. cbn [fst].
    eapply sequenced_push; [exact Hw|reflexivity..].
  - intros i w w' e Hw (inh & _ & -> & Hmem & Hcnt & _)%leave_core_inv.
    eapply sequenced_push; [exact Hw|exact Hmem|exact Hcnt|reflexivity].
  - intros f t c r m w w' e Hw (s & cls & _ & -> & Hmem & Hcnt & _)%processMessage_core_inv.
    eapply sequenced_push; [exact Hw|exact Hmem|exact Hcnt|reflexivity].
Qed.

(** C3. Whatever sequence of [enter], [leave] and [processMessage] calls
    the host makes on a new world, whatever handlers are subscribed and
    however deep they call back into the world during emission (also when
    a handler throws or the nesting is cut off), the [i]-th recorded
    event of memory has sequence number [i]: the numbers start at 1 and
    go up by one, and the counter is the number of recorded events. *)
Theorem sequence_numbers_consecutive (fuel : nat) (ops : list World.Op) :
  let w := World.steps uuidv4 Date_now listeners fuel ops World.empty in
  map Event.sequence (World.memory w) = seq 1 (length (World.memory w)) /\
  World.sequenceCounter w = length (World.memory w).
Proof.
  destruct (sequenced_run fuel ops) as [Hc Hm]. by split.
Qed.

(** C4. A [processMessage] whose [from] is not an active inhabitant
    returns null and leaves the whole state of the world as it was:
    memory, relationships, sequence counter (and the inhabitants); no
    handler runs. *)
Theorem processMessage_unknown_sender
        (fuel : nat) (from to : string) (content replyTo : option string)
        (meta : Meta) (w : World.t) :
  JsMap.get from (World.inhabitants w) = None ->
  World.processMessage uuidv4 Date_now listeners fuel from to content replyTo meta w
  = (w, Returned None).
Proof.
  intros Hget. unfold World.processMessage, World.processMessage_with.
  by rewrite processMessage_core_None.
Qed.

End Sequencing.

Section Classification.
Variable uuidv4 : nat -> string.
Variable Date_now : nat -> Z.

(** A message that is already the last event of memory is among the recent
    messages it is compared with, so its own topic is never new. *)
Lemma classifyExchange_recorded (message : Event.t) (w : World.t) (earlier : list Event.t) :
  Event.is_message message = true ->
  World.memory w = earlier ++ [message] ->
  World.classifyExchange message w = perturbation.
Proof.
  intros Hmsg Hmem. unfold World.classifyExchange, World.getRecentMessages.
  assert (Hfilter : List.filter Event.is_message (earlier ++ [message])
                    = List.filter Event.is_message earlier ++ [message]).
  { rewrite List.filter_app. cbn [List.filter]. by rewrite Hmsg. }
  rewrite Hmem, Hfilter.
  destruct (slice_last_snoc 19 (List.filter Event.is_message earlier) message)
    as [recent ->].
  rewrite map_app. cbn [map].
  destruct (World.extractTopic (Event.content message)) as [topic|]; [|done].
  destruct (JsString.truthy (Some topic)) eqn:Htruthy; [|done].
  rewrite bool_decide_eq_true_2; [done|].
  apply elem_of_list_to_set. unfold World.filter_Boolean.
  apply list_elem_of_omap. exists (Some topic). split.
  - apply elem_of_app. right. by apply list_elem_of_singleton.
  - unfold World.or_null. by rewrite Htruthy.
Qed.

(** Every message [processMessage] records is classified as a
    perturbation, whatever its content and whatever the history. *)
Lemma processMessage_core_perturbation f t c r meta w w' m :
  World.processMessage_core uuidv4 Date_now f t c r meta w = Some (w', m) ->
  Event.classification m = Some perturbation.
Proof.
  destruct (JsMap.get f (World.inhabitants w)) as [sender|] eqn:Hget.
  - rewrite (processMessage_core_Some _ _ _ _ _ _ _ _ _ Hget). cbn zeta.
    intros [= _ <-]. cbn [Event.classification Event.set_classification].
    f_equal. by eapply classifyExchange_recorded.
  - by rewrite processMessage_core_None.
Qed.

End Classification.

Section Edges.

Lemma lookup_edge_update_edge f a b rels a' b' :
  lookup_edge (World.update_edge f a b rels) a' b' =
  if decide (a' = a /\ b' = b) then f <$> lookup_edge rels a b
  else lookup_edge rels a' b'.
Proof.
  unfold lookup_edge, World.update_edge.
  destruct (rels !! a) as [m|] eqn:Ha; simpl.
  - destruct (m !! b) as [rel|] eqn:Hb; simpl.
    + case_decide as Hd.
      * destruct Hd as [-> ->]. rewrite lookup_insert_eq. simpl.
        by rewrite lookup_insert_eq.
      * destruct (decide (a' = a)) as [->|Hne].
        -- rewrite lookup_insert_eq, Ha. simpl.
           rewrite lookup_insert_ne; [done|]. intros ->. by apply Hd.
        -- by rewrite lookup_insert_ne.
    + case_decide as Hd; [|done].
      destruct Hd as [-> ->]. rewrite Ha. simpl. by rewrite Hb.
  - case_decide as Hd; [|done]. destruct Hd as [-> ->]. by rewrite Ha.
Qed.

Lemma lookup_update_edge_is_Some f a b rels c :
  is_Some (World.update_edge f a b rels !! c) <-> is_Some (rels !! c).
Proof.
  unfold World.update_edge.
  destruct (rels !! a) as [m|] eqn:Ha; [|done].
  destruct (m !! b) as [rel|]; [|done].
  destruct (decide (c = a)) as [->|Hne].
  - rewrite lookup_insert_eq, Ha. split; eauto.
  - by rewrite lookup_insert_ne.
Qed.

Lemma update_edge_absent f a b rels :
  lookup_edge rels a b = None -> World.update_edge f a b rels = rels.
Proof.
  unfold lookup_edge, World.update_edge.
  destruct (rels !! a) as [m|]; simpl; [|done].
  by intros ->.
Qed.

Lemma lookup_edge_broadcast_loop n f keys rels a b :
  NoDup keys ->
  lookup_edge (broadcast_loop n f keys rels) a b =
  if decide (a = f /\ b ∈ keys /\ b ≠ f)
  then World.broadcast_touch n <$> lookup_edge rels a b
  else lookup_edge rels a b.
Proof.
  unfold broadcast_loop. intros Hnd. revert rels.
  induction Hnd as [|k keys Hk Hnd IH]; intros rels; simpl.
  - case_decide as Hd; [|done]. destruct Hd as (_ & Hin & _). by inversion Hin.
  - rewrite IH. destruct (String.eqb_spec k f) as [->|Hkf]; simpl.
    + split_decides; try done; exfalso;
        rewrite ?elem_of_cons in *; intuition congruence.
    + rewrite lookup_edge_update_edge.
      split_decides; try done.
      all: rewrite ?elem_of_cons in *.
      all: try (exfalso; intuition congruence).
      by repeat match goal with H : _ /\ _ |- _ => destruct H end; subst.
Qed.

Lemma lookup_edge_direct_sender g h f t rels :
  f ≠ t ->
  lookup_edge (World.update_edge g t f (World.update_edge h f t rels)) f t
  = h <$> lookup_edge rels f t.
Proof.
  intros Hne. rewrite !lookup_edge_update_edge.
  rewrite decide_False by (by intros [? _]).
  by rewrite decide_True.
Qed.

Lemma lookup_edge_direct_addressee g h f t rels :
  f ≠ t ->
  lookup_edge (World.update_edge g t f (World.update_edge h f t rels)) t f
  = g <$> lookup_edge rels t f.
Proof.
  intros Hne. rewrite !lookup_edge_update_edge.
  rewrite decide_True by done.
  by rewrite decide_False by (by intros [? _]).
Qed.

Lemma updateRelationship_direct f t m w :
  t ≠ "world" ->
  World.relationships (World.updateRelationship f t m w) =
  World.update_edge (World.direct_touch 0.05 (Event.sequence m)) t f
    (World.update_edge (World.direct_touch 0.1 (Event.sequence m)) f t
       (World.relationships w)).
Proof.
  intros Hne. unfold World.updateRelationship. cbn [World.relationships].
  by destruct (String.eqb_spec t "world").
Qed.

Lemma updateRelationship_broadcast f m w :
  World.relationships (World.updateRelationship f "world" m w) =
  broadcast_loop (Event.sequence m) f (JsMap.keys (World.inhabitants w))
                 (World.relationships w).
Proof. reflexivity. Qed.

Lemma JsMap_get_keys {V : Type} (k : string) (v : V) (m : list (string * V)) :
  JsMap.get k m = Some v -> k ∈ JsMap.keys m.
Proof.
  induction m as [|[k' v'] m IH]; simpl; [done|].
  destruct (String.eqb_spec k' k) as [->|Hne].
  - intros _. apply list_elem_of_here.
  - intros H. apply list_elem_of_further. by apply IH.
Qed.

End Edges.

Section QuietHandlers.
Variable uuidv4 : nat -> string.
Variable Date_now : nat -> Z.
Variable listeners : World.Listeners.

Hypothesis listeners_quiet : quiet listeners.

Lemma emit_loop_quiet_state call hs d w :
  (forall h, h ∈ hs -> h d = World.Done) ->
  (forall w, fst (call World.Done w) = w) ->
  fst (World.emit_loop call hs d w) = w.
Proof.
  intros Hhs Hcall. induction hs as [|h hs IH]; simpl; [done|].
  rewrite (Hhs h) by apply list_elem_of_here.
  specialize (Hcall w).
  destruct (call World.Done w) as [w1 [[]| |]]; simpl in *; subst; try done.
  apply IH. intros h' Hin. apply Hhs. by apply list_elem_of_further.
Qed.

Lemma emit_loop_quiet_returns call hs d w :
  (forall h, h ∈ hs -> h d = World.Done) ->
  (forall w, call World.Done w = (w, Returned tt)) ->
  World.emit_loop call hs d w = (w, Returned tt).
Proof.
  intros Hhs Hcall. induction hs as [|h hs IH]; simpl; [done|].
  rewrite (Hhs h) by apply list_elem_of_here.
  rewrite Hcall. simpl.
  apply IH. intros h' Hin. apply Hhs. by apply list_elem_of_further.
Qed.

Lemma handlers_quiet ev h d :
  h ∈ default [] (listeners !! ev) -> h d = World.Done.
Proof.
  destruct (listeners !! ev) as [hs|] eqn:E; simpl.
  - intros Hin. by eapply listeners_quiet.
  - by intros ?%elem_of_nil.
Qed.

Lemma emit_quiet_state fuel ev d w :
  fst (World.emit uuidv4 Date_now listeners fuel ev d w) = w.
Proof.
  apply emit_loop_quiet_state.
  - intros h. apply handlers_quiet.
  - intros w'. by destruct fuel.
Qed.

Lemma emit_quiet_returns fuel ev d w :
  World.emit uuidv4 Date_now listeners fuel ev d w = (w, Returned tt).
Proof.
  apply emit_loop_quiet_returns.
  - intros h. apply handlers_quiet.
  - intros w'. by destruct fuel.
Qed.

Lemma processMessage_quiet_state fuel f t c r meta w w1 m :
  World.processMessage_core uuidv4 Date_now f t c r meta w = Some (w1, m) ->
  fst (World.processMessage uuidv4 Date_now listeners fuel f t c r meta w) = w1.
Proof.
  intros Hcore. unfold World.processMessage, World.processMessage_with.
  rewrite Hcore.
  pose proof (emit_quiet_state fuel "message" (MessagePayload m) w1) as Hemit.
  destruct (World.emit _ _ _ _ _ _ _) as [w2 [[]| |]]; simpl in *; by subst.
Qed.

Lemma processMessage_direct_state fuel f t c r meta w sender :
  JsMap.get f (World.inhabitants w) = Some sender ->
  t ≠ "world" ->
  let w' := fst (World.processMessage uuidv4 Date_now listeners fuel f t c r meta w) in
  World.inhabitants w' = World.inhabitants w /\
  World.sequenceCounter w' = S (World.sequenceCounter w) /\
  World.relationships w' =
    World.update_edge (World.direct_touch 0.05 (S (World.sequenceCounter w))) t f
      (World.update_edge (World.direct_touch 0.1 (S (World.sequenceCounter w))) f t
         (World.relationships w)).
Proof.
  intros Hget Hne w'. unfold w'.
  erewrite processMessage_quiet_state
    by (apply processMessage_core_Some; exact Hget).
  cbn [World.inhabitants World.sequenceCounter World.relationships].
  repeat split. by rewrite updateRelationship_direct.
Qed.

Lemma processMessage_broadcast_state fuel f c r meta w sender :
  JsMap.get f (World.inhabitants w) = Some sender ->
  let w' := fst (World.processMessage uuidv4 Date_now listeners fuel
                   f "world" c r meta w) in
  World.inhabitants w' = World.inhabitants w /\
  World.sequenceCounter w' = S (World.sequenceCounter w) /\
  World.relationships w' =
    broadcast_loop (S (World.sequenceCounter w)) f
                   (JsMap.keys (World.inhabitants w)) (World.relationships w).
Proof.
  intros Hget w'. unfold w'.
  erewrite processMessage_quiet_state
    by (apply processMessage_core_Some; exact Hget).
  cbn [World.inhabitants World.sequenceCounter World.relationships].
  repeat split.
Qed.

(** C6. From a state in which A is active and the edges between A and B
    are the default ones in both directions, after two direct messages
    from A to B (and nothing else): the edge of A towards B has
    entanglement 0.2, the edge of B towards A has entanglement 0.1, and
    both are non-default with 2 interactions, last touched by the second
    message. *)
Theorem direct_messages_asymmetric_entanglement
        (fuel : nat) (A B : string) (sender : Inhabitant.t)
        (c1 c2 r1 r2 : option string) (meta1 meta2 : Meta) (w : World.t) :
  JsMap.get A (World.inhabitants w) = Some sender ->
  A ≠ B ->
  B ≠ "world" ->
  lookup_edge (World.relationships w) A B = Some World.default_model ->
  lookup_edge (World.relationships w) B A = Some World.default_model ->
  let w2 := World.steps uuidv4 Date_now listeners fuel
              [World.OpProcessMessage A B c1 r1 meta1;
               World.OpProcessMessage A B c2 r2 meta2] w in
  lookup_edge (World.relationships w2) A B
  = Some (mkRelationship non_default 0.2 2 (Some (2 + World.sequenceCounter w))) /\
  lookup_edge (World.relationships w2) B A
  = Some (mkRelationship non_default 0.1 2 (Some (2 + World.sequenceCounter w))).
Proof.
  intros Hget HAB HB HeAB HeBA. cbn zeta. simpl World.steps.
  destruct (processMessage_direct_state fuel A B c1 r1 meta1 w sender Hget HB)
    as (Hinh1 & Hcnt1 & Hrel1).
  set (w1 := fst (World.processMessage uuidv4 Date_now listeners fuel A B c1 r1 meta1 w))
    in *.
  assert (Hget1 : JsMap.get A (World.inhabitants w1) = Some sender)
    by (by rewrite Hinh1).
  destruct (processMessage_direct_state fuel A B c2 r2 meta2 w1 sender Hget1 HB)
    as (_ & _ & Hrel2).
  rewrite Hrel2, Hrel1, Hcnt1.
  rewrite !lookup_edge_direct_sender, !lookup_edge_direct_addressee by done.
  rewrite HeAB, HeBA. split; reflexivity.
Qed.

(** C7. From a state in which A and B are active and the edge of A
    towards B is the default one, each broadcast from A adds one to the
    interactions of that edge and stamps it with the sequence number of
    the broadcast, and leaves its entanglement as it was; the edge is still
    default after two broadcasts and non-default after the third. *)
Theorem broadcast_promotion_threshold
        (fuel : nat) (A B : string) (sender other : Inhabitant.t)
        (c1 c2 c3 r1 r2 r3 : option string) (meta1 meta2 meta3 : Meta) (w : World.t) :
  JsMap.wf (World.inhabitants w) ->
  JsMap.get A (World.inhabitants w) = Some sender ->
  JsMap.get B (World.inhabitants w) = Some other ->
  A ≠ B ->
  lookup_edge (World.relationships w) A B = Some World.default_model ->
  let say c r meta := World.OpProcessMessage A "world" c r meta in
  let w1 := World.step uuidv4 Date_now listeners fuel (say c1 r1 meta1) w in
  let w2 := World.step uuidv4 Date_now listeners fuel (say c2 r2 meta2) w1 in
  let w3 := World.step uuidv4 Date_now listeners fuel (say c3 r3 meta3) w2 in
  lookup_edge (World.relationships w1) A B
  = Some (mkRelationship default_tier 0 1 (Some (1 + World.sequenceCounter w))) /\
  lookup_edge (World.relationships w2) A B
  = Some (mkRelationship default_tier 0 2 (Some (2 + World.sequenceCounter w))) /\
  lookup_edge (World.relationships w3) A B
  = Some (mkRelationship non_default 0 3 (Some (3 + World.sequenceCounter w))).
Proof.
  intros Hwf HgetA HgetB HAB He. cbn zeta. simpl World.step.
  assert (Hstep : forall c r meta w0 rel,
             World.inhabitants w0 = World.inhabitants w ->
             lookup_edge (World.relationships w0) A B = Some rel ->
             let w' := fst (World.processMessage uuidv4 Date_now listeners fuel
                              A "world" c r meta w0) in
             World.inhabitants w' = World.inhabitants w /\
             World.sequenceCounter w' = S (World.sequenceCounter w0) /\
             lookup_edge (World.relationships w') A B
             = Some (World.broadcast_touch (S (World.sequenceCounter w0)) rel)).
  { intros c r meta w0 rel Hinh Hrel w'.
    assert (Hget0 : JsMap.get A (World.inhabitants w0) = Some sender)
      by (by rewrite Hinh).
    destruct (processMessage_broadcast_state fuel A c r meta w0 sender Hget0)
      as (Hi & Hc & Hr).
    fold w' in Hi, Hc, Hr. rewrite Hi, Hc, Hr, Hinh. repeat split.
    rewrite lookup_edge_broadcast_loop by exact Hwf.
    rewrite decide_True, Hrel; [done|].
    repeat split; [by eapply JsMap_get_keys|congruence]. }
  destruct (Hstep c1 r1 meta1 w _ eq_refl He) as (Hi1 & Hc1 & He1).
  destruct (Hstep c2 r2 meta2 _ _ Hi1 He1) as (Hi2 & Hc2 & He2).
  destruct (Hstep c3 r3 meta3 _ _ Hi2 He2) as (_ & _ & He3).
  rewrite He1, He2, He3, Hc2, Hc1. repeat split.
Qed.

End QuietHandlers.

Section Recipients.
Variable uuidv4 : nat -> string.
Variable Date_now : nat -> Z.
Variable listeners : World.Listeners.

(** C10. [processMessage] does not look at the recipient. When the sender
    is active, whatever [to] is, the message is recorded as the next event
    of memory with a classification, handed to [emit] under the name
    ['message'], and returned as soon as [emit] returns (it does with
    handlers that leave the world alone); the call never returns null.
    When [to] is an unknown id the relationship graph is left as it was. *)
Theorem processMessage_any_recipient
        (fuel : nat) (from to : string) (content replyTo : option string)
        (meta : Meta) (w : World.t) (sender : Inhabitant.t) :
  JsMap.get from (World.inhabitants w) = Some sender ->
  exists (w1 : World.t) (cls : Classification),
    let n := S (World.sequenceCounter w) in
    let m := Event.mk (uuidv4 n) n (Date_now n)
               (Event.MessageData from (Inhabitant.name sender) to content replyTo meta)
               (Some cls) in
    World.memory w1 = World.memory w ++ [m] /\
    (forall emit,
        World.processMessage_with uuidv4 Date_now emit from to content replyTo meta w
        = World.bind (emit "message" (MessagePayload m) w1)
                     (fun _ w2 => (w2, Returned (Some m)))) /\
    (forall emit w',
        World.processMessage_with uuidv4 Date_now emit from to content replyTo meta w
        <> (w', Returned None)) /\
    (quiet listeners ->
     World.processMessage uuidv4 Date_now listeners fuel
                          from to content replyTo meta w
     = (w1, Returned (Some m))) /\
    (unknown_id w to -> World.relationships w1 = World.relationships w).
Proof.
  intros Hget.
  pose proof (processMessage_core_Some uuidv4 Date_now from to content replyTo meta
                w sender Hget) as Hcore.
  cbn zeta in Hcore.
  set (m0 := fresh_event uuidv4 Date_now
               (Event.MessageData from (Inhabitant.name sender) to content replyTo meta)
               w) in *.
  set (w2 := World.updateRelationship from to m0
               (fst (World.recordEvent uuidv4 Date_now (Event.data m0) w))) in *.
  exists (World.mk (World.memory w ++
                      [Event.set_classification (World.classifyExchange m0 w2) m0])
                   (S (World.sequenceCounter w)) (World.inhabitants w)
                   (World.relationships w2)),
         (World.classifyExchange m0 w2).
  cbn zeta. change (Event.mk _ _ _ _ (Some (World.classifyExchange m0 w2)))
    with (Event.set_classification (World.classifyExchange m0 w2) m0).
  split; [reflexivity|].
  split; [|split; [|split]].
  - intros emit. unfold World.processMessage_with. rewrite Hcore. reflexivity.
  - intros emit w'. unfold World.processMessage_with. rewrite Hcore.
    destruct (emit _ _ _) as [w3 [[]| |]]; simpl; congruence.
  - intros Hquiet. unfold World.processMessage, World.processMessage_with.
    rewrite Hcore. by rewrite emit_quiet_returns.
  - intros (Hworld & Hmap & Hedge). cbn [World.relationships]. unfold w2.
    rewrite updateRelationship_direct by exact Hworld.
    cbn [World.relationships fst World.recordEvent].
    rewrite (update_edge_absent _ from to) by apply Hedge.
    apply update_edge_absent. unfold lookup_edge. by rewrite Hmap.
Qed.

End Recipients.

(* ================================================================== *)
(** * The properties on a concrete world *)

Section ScenarioFacts.

Lemma observer_quiet : quiet observer.
Proof.
  intros ev hs Hlook h d Hin. unfold observer in Hlook.
  apply lookup_singleton_Some in Hlook as [_ <-].
  apply list_elem_of_singleton in Hin. by subst h.
Qed.

(** A reply made from inside the emission of a message takes the next
    sequence number: the handler [echo] answers Ada's "ping" while
    [processMessage] is still emitting it. *)
Lemma reentrant_reply_is_sequenced :
  let w := World.steps demo_uuidv4 demo_Date_now echoing 3
             [World.OpProcessMessage "human-1" "vera" (Some "ping") None []]
             (two_inhabitants echoing) in
  map (fun e => (Event.sequence e, Event.from e, Event.content e)) (World.memory w)
  = [(1, None, None); (2, None, None);
     (3, Some "human-1", Some "ping"); (4, Some "vera", Some "pong")].
Proof. vm_compute. reflexivity. Qed.

Lemma processMessage_unknown_sender_witness :
  World.processMessage demo_uuidv4 demo_Date_now echoing 3
                       "stranger" "vera" (Some "ping") None []
                       (two_inhabitants echoing)
  = (two_inhabitants echoing, Returned None).
Proof.
  apply (processMessage_unknown_sender demo_uuidv4 demo_Date_now echoing 3
           "stranger" "vera" (Some "ping") None [] (two_inhabitants echoing)).
  reflexivity.
Defined.

Lemma direct_messages_asymmetric_entanglement_witness :
  lookup_edge
    (World.relationships
       (World.steps demo_uuidv4 demo_Date_now observer 0
          [World.OpProcessMessage "human-1" "vera" (Some "Hello Vera") None [];
           World.OpProcessMessage "human-1" "vera" (Some "Are you there?") None []]
          (two_inhabitants observer)))
    "human-1" "vera"
  = Some (mkRelationship non_default 0.2 2 (Some 4)) /\
  lookup_edge
    (World.relationships
       (World.steps demo_uuidv4 demo_Date_now observer 0
          [World.OpProcessMessage "human-1" "vera" (Some "Hello Vera") None [];
           World.OpProcessMessage "human-1" "vera" (Some "Are you there?") None []]
          (two_inhabitants observer)))
    "vera" "human-1"
  = Some (mkRelationship non_default 0.1 2 (Some 4)).
Proof.
  apply (direct_messages_asymmetric_entanglement demo_uuidv4 demo_Date_now
           observer observer_quiet 0 "human-1" "vera" ada
           (Some "Hello Vera") (Some "Are you there?") None None [] []
           (two_inhabitants observer)).
  - reflexivity.
  - discriminate.
  - discriminate.
  - reflexivity.
  - reflexivity.
Defined.

Lemma two_inhabitants_wf :
  JsMap.wf (World.inhabitants (two_inhabitants observer)).
Proof.
  unfold JsMap.wf. change (NoDup ["human-1"; "vera"]).
  repeat constructor; rewrite ?elem_of_cons, ?elem_of_nil; intuition discriminate.
Qed.

Lemma broadcast_promotion_threshold_witness :
  let say c := World.OpProcessMessage "human-1" "world" (Some c) None [] in
  let w1 := World.step demo_uuidv4 demo_Date_now observer 0 (say "Anyone here?")
              (two_inhabitants observer) in
  let w2 := World.step demo_uuidv4 demo_Date_now observer 0 (say "Still me.") w1 in
  let w3 := World.step demo_uuidv4 demo_Date_now observer 0 (say "One more.") w2 in
  lookup_edge (World.relationships w1) "human-1" "vera"
  = Some (mkRelationship default_tier 0 1 (Some 3)) /\
  lookup_edge (World.relationships w2) "human-1" "vera"
  = Some (mkRelationship default_tier 0 2 (Some 4)) /\
  lookup_edge (World.relationships w3) "human-1" "vera"
  = Some (mkRelationship non_default 0 3 (Some 5)).
Proof.
  apply (broadcast_promotion_threshold demo_uuidv4 demo_Date_now
           observer observer_quiet 0 "human-1" "vera" ada vera_inhabitant
           (Some "Anyone here?") (Some "Still me.") (Some "One more.")
           None None None [] [] [] (two_inhabitants observer)).
  - apply two_inhabitants_wf.
  - reflexivity.
  - reflexivity.
  - discriminate.
  - reflexivity.
Defined.

End ScenarioFacts.

Section ClassificationScenario.

(** C1, on the code. In a world whose memory holds no message at all, so
    that no recent topic can equal "biology", the message "Biology is
    fascinating" (topic "biology", not empty) is classified as a
    perturbation, where the specification calls for a fork: the message
    is recorded before it is classified and is compared with itself. *)
Theorem novel_topic_is_classified_perturbation :
  let w := two_inhabitants observer in
  let content := Some "Biology is fascinating" in
  World.extractTopic content = Some "biology" /\
  World.getRecentMessages 20 w = [] /\
  snd (World.processMessage demo_uuidv4 demo_Date_now observer 0
                            "human-1" "world" content None [] w)
  = Returned
      (Some (Event.mk "evt-3" 3 1700000000750
               (Event.MessageData "human-1" "Ada" "world" content None [])
               (Some perturbation))).
Proof. vm_compute. repeat split. Qed.

Lemma two_inhabitants_nobody_unknown :
  unknown_id (two_inhabitants observer) "nobody".
Proof.
  split; [discriminate|]. split; [reflexivity|].
  intros a. unfold lookup_edge.
  destruct (World.relationships (two_inhabitants observer) !! a) as [m|] eqn:E;
    [|reflexivity].
  apply elem_of_map_to_list in E.
  set (edges := map_to_list _) in E. vm_compute in edges. subst edges.
  repeat (apply elem_of_cons in E as [E|E]; [by injection E as -> ->|]).
  by apply elem_of_nil in E.
Qed.

Lemma processMessage_any_recipient_witness :
  World.relationships
    (fst (World.processMessage demo_uuidv4 demo_Date_now observer 0
            "human-1" "nobody" (Some "Is anyone called nobody?") None []
            (two_inhabitants observer)))
  = World.relationships (two_inhabitants observer) /\
  exists m,
    snd (World.processMessage demo_uuidv4 demo_Date_now observer 0
           "human-1" "nobody" (Some "Is anyone called nobody?") None []
           (two_inhabitants observer))
    = Returned (Some m) /\ Event.to m = Some "nobody".
Proof.
  destruct (processMessage_any_recipient demo_uuidv4 demo_Date_now observer 0
              "human-1" "nobody" (Some "Is anyone called nobody?") None []
              (two_inhabitants observer) ada eq_refl)
    as (w1 & cls & _ & _ & _ & Hret & Hrels).
  rewrite (Hret observer_quiet). cbn [fst snd]. split.
  - apply Hrels. exact two_inhabitants_nobody_unknown.
  - eexists. split; reflexivity.
Defined.

End ClassificationScenario.

(* ================================================================== *)
(** * What [enter] establishes, and what every reachable world satisfies *)

Section MapFacts.
Context {V : Type}.

Lemma JsMap_keys_set (k : string) (v : V) (m : list (string * V)) :
  JsMap.keys (JsMap.set k v m) =
  if JsMap.has k m then JsMap.keys m else JsMap.keys m ++ [k].
Proof.
  unfold JsMap.has. induction m as [|[k' v'] m IH]; simpl; [done|].
  destruct (String.eqb_spec k' k) as [->|Hne]; simpl; [done|].
  rewrite IH. by destruct (JsMap.get k m).
Qed.

Lemma JsMap_get_None_keys (k : string) (m : list (string * V)) :
  JsMap.get k m = None -> k ∉ JsMap.keys m.
Proof.
  induction m as [|[k' v'] m IH]; simpl.
  - intros _ H. by apply elem_of_nil in H.
  - destruct (String.eqb_spec k' k) as [->|Hne]; [done|].
    intros Hget [?|?]%elem_of_cons; [congruence|]. by apply IH.
Qed.

Lemma JsMap_get_set_same (k : string) (v : V) (m : list (string * V)) :
  JsMap.get k (JsMap.set k v m) = Some v.
Proof.
  induction m as [|[k' v'] m IH]; simpl.
  - by rewrite String.eqb_refl.
  - destruct (String.eqb_spec k' k) as [->|Hne]; simpl.
    + by rewrite String.eqb_refl.
    + by destruct (String.eqb_spec k' k).
Qed.


Lemma JsMap_keys_delete (k k0 : string) (m : list (string * V)) :
  k0 ∈ JsMap.keys (JsMap.delete k m) -> k0 ∈ JsMap.keys m.
Proof.
  induction m as [|[k' v'] m IH]; simpl; [done|].
  destruct (String.eqb_spec k' k) as [->|Hne]; simpl.
  - apply list_elem_of_further.
  - intros [->|?]%elem_of_cons; [apply list_elem_of_here|].
    apply list_elem_of_further. by apply IH.
Qed.

Lemma JsMap_wf_set (k : string) (v : V) (m : list (string * V)) :
  JsMap.wf m -> JsMap.wf (JsMap.set k v m).
Proof.
  unfold JsMap.wf. rewrite JsMap_keys_set. unfold JsMap.has.
  destruct (JsMap.get k m) eqn:E; [done|].
  intros Hnd. apply NoDup_app. split; [done|]. split.
  - intros x Hx ->%list_elem_of_singleton. by eapply JsMap_get_None_keys.
  - apply NoDup_singleton.
Qed.

Lemma JsMap_wf_delete (k : string) (m : list (string * V)) :
  JsMap.wf m -> JsMap.wf (JsMap.delete k m).
Proof.
  unfold JsMap.wf. induction m as [|[k' v'] m IH]; simpl; [done|].
  intros [Hk Hnd]%NoDup_cons.
  destruct (String.eqb_spec k' k) as [->|Hne]; simpl; [done|].
  apply NoDup_cons. split; [|by apply IH].
  intros Hin. apply Hk. by eapply JsMap_keys_delete.
Qed.

End MapFacts.

Section ReachableMaps.
Variable uuidv4 : nat -> string.
Variable Date_now : nat -> Z.
Variable listeners : World.Listeners.

(** The inhabitants of a world the host has driven from [new World()]
    form a [Map]: no id is listed twice. *)
Lemma inhabitants_wf (fuel : nat) (ops : list World.Op) :
  JsMap.wf (World.inhabitants
              (World.steps uuidv4 Date_now listeners fuel ops World.empty)).
Proof.
  apply (steps_keeps uuidv4 Date_now listeners
           (fun w => JsMap.wf (World.inhabitants w))).
  - intros i w Hw. rewrite enter_core_eq. cbn. by apply JsMap_wf_set.
  - intros i w w' e Hw (_ & _ & _ & _ & _ & -> & _)%leave_core_inv.
    by apply JsMap_wf_delete.
  - intros f t c r m w w' e Hw (_ & _ & _ & _ & _ & _ & ->)%processMessage_core_inv.
    exact Hw.
  - apply NoDup_nil_2.
Qed.

End ReachableMaps.

Section EnterEdges.

Lemma lookup_set_edge_is_Some a b rel rels c :
  is_Some (World.set_edge a b rel rels !! c) <-> is_Some (rels !! c).
Proof.
  unfold World.set_edge. destruct (rels !! a) as [m|] eqn:Ha; [|done].
  destruct (decide (c = a)) as [->|Hne].
  - rewrite lookup_insert_eq, Ha. split; eauto.
  - by rewrite lookup_insert_ne.
Qed.

Lemma lookup_edge_set_edge a b rel rels a' b' :
  lookup_edge (World.set_edge a b rel rels) a' b' =
  if decide (a' = a /\ b' = b /\ is_Some (rels !! a)) then Some rel
  else lookup_edge rels a' b'.
Proof.
  unfold lookup_edge, World.set_edge.
  destruct (rels !! a) as [m|] eqn:Ha.
  - destruct (decide (a' = a)) as [->|Hne].
    + rewrite lookup_insert_eq, Ha. simpl.
      destruct (decide (b' = b)) as [->|Hneb].
      * rewrite lookup_insert_eq. by rewrite decide_True by eauto.
      * rewrite lookup_insert_ne by done.
        by rewrite decide_False by (by intros (_ & ? & _)).
    + rewrite lookup_insert_ne by done.
      by rewrite decide_False by (by intros (? & _)).
  - rewrite decide_False; [done|].
    intros (_ & _ & [? ?]). congruence.
Qed.

Lemma enter_step_eq newId rels otherId :
  World.enter_step newId rels otherId =
  if negb (String.eqb otherId newId)
  then World.set_edge otherId newId World.default_model
         (World.set_edge newId otherId World.default_model rels)
  else rels.
Proof.
  unfold World.enter_step. destruct (negb _); [|done].
  destruct (World.set_edge newId otherId _ rels !! otherId) eqn:E; [done|].
  unfold World.set_edge at 2. by rewrite E.
Qed.

Lemma lookup_enter_step_is_Some newId rels otherId c :
  is_Some (World.enter_step newId rels otherId !! c) <-> is_Some (rels !! c).
Proof.
  rewrite enter_step_eq. destruct (negb _); [|done].
  by rewrite !lookup_set_edge_is_Some.
Qed.

Lemma lookup_enter_fold_is_Some newId keys rels c :
  is_Some (fold_left (World.enter_step newId) keys rels !! c) <-> is_Some (rels !! c).
Proof.
  revert rels. induction keys as [|k keys IH]; intros rels; simpl; [done|].
  by rewrite IH, lookup_enter_step_is_Some.
Qed.

Lemma lookup_edge_enter_fold newId keys rels a b :
  (linked_by_enter newId keys rels a b ->
   lookup_edge (fold_left (World.enter_step newId) keys rels) a b
   = Some World.default_model) /\
  (~ linked_by_enter newId keys rels a b ->
   lookup_edge (fold_left (World.enter_step newId) keys rels) a b
   = lookup_edge rels a b).
Proof.
  revert rels. induction keys as [|k keys IH]; intros rels; simpl.
  - split; [|done].
    intros [(_ & Hin & _)|(_ & Hin & _)]; by apply elem_of_nil in Hin.
  - destruct (IH (World.enter_step newId rels k)) as [IHyes IHno].
    assert (Hdom : forall c, is_Some (World.enter_step newId rels k !! c)
                             <-> is_Some (rels !! c))
      by (intros c; apply lookup_enter_step_is_Some).
    assert (Hstep :
              lookup_edge (World.enter_step newId rels k) a b =
              if decide (linked_by_enter newId [k] rels a b)
              then Some World.default_model else lookup_edge rels a b).
    { rewrite enter_step_eq. unfold linked_by_enter.
      destruct (String.eqb_spec k newId) as [->|Hk]; simpl.
      - rewrite decide_False; [done|].
        rewrite !list_elem_of_singleton. intuition congruence.
      - rewrite !lookup_edge_set_edge.
        pose proof (lookup_set_edge_is_Some newId k World.default_model rels k)
          as Hk'.
        split_decides; try done.
        all: rewrite ?list_elem_of_singleton in *.
        all: exfalso; intuition (subst; intuition congruence). }
    destruct (decide (linked_by_enter newId keys (World.enter_step newId rels k) a b))
      as [Hrest|Hrest].
    + split; [intros _; by apply IHyes|].
      intros Hno. exfalso. apply Hno.
      pose proof (Hdom newId) as Hn. pose proof (Hdom a) as Ha.
      unfold linked_by_enter in *.
      rewrite !elem_of_cons. intuition.
    + rewrite (IHno Hrest), Hstep.
      pose proof (Hdom newId) as Hn. pose proof (Hdom a) as Ha.
      unfold linked_by_enter in *.
      rewrite !elem_of_cons.
      split_decides; split; try done; intros H; exfalso;
        rewrite ?list_elem_of_singleton in *; intuition congruence.
Qed.

End EnterEdges.

Section KnownIds.
Variable uuidv4 : nat -> string.
Variable Date_now : nat -> Z.
Variable listeners : World.Listeners.

Lemma entered_mono (w w' : World.t) (e : Event.t) (t : string) :
  World.memory w' = World.memory w ++ [e] -> entered w t -> entered w' t.
Proof.
  intros Hmem (e0 & n & k & Hin & Hdata). exists e0, n, k.
  split; [|done]. rewrite Hmem. apply elem_of_app. by left.
Qed.

Lemma lookup_broadcast_loop_is_Some n f keys rels c :
  is_Some (broadcast_loop n f keys rels !! c) <-> is_Some (rels !! c).
Proof.
  unfold broadcast_loop. revert rels.
  induction keys as [|k keys IH]; intros rels; simpl; [done|].
  rewrite IH. destruct (negb _); [|done]. apply lookup_update_edge_is_Some.
Qed.

Lemma lookup_edge_update_edge_is_Some g a b rels a' b' :
  is_Some (lookup_edge (World.update_edge g a b rels) a' b')
  <-> is_Some (lookup_edge rels a' b').
Proof.
  rewrite lookup_edge_update_edge. destruct (decide _) as [[-> ->]|]; [|done].
  by rewrite fmap_is_Some.
Qed.

Lemma lookup_edge_broadcast_loop_is_Some n f keys rels a b :
  is_Some (lookup_edge (broadcast_loop n f keys rels) a b)
  <-> is_Some (lookup_edge rels a b).
Proof.
  unfold broadcast_loop. revert rels.
  induction keys as [|k keys IH]; intros rels; simpl; [done|].
  rewrite IH. destruct (negb _); [|done]. apply lookup_edge_update_edge_is_Some.
Qed.

(** [updateRelationship] creates no map and no edge, and removes none. *)
Lemma updateRelationship_same_graph f t m w :
  (forall c, is_Some (World.relationships (World.updateRelationship f t m w) !! c)
             <-> is_Some (World.relationships w !! c)) /\
  (forall a b,
      is_Some (lookup_edge (World.relationships (World.updateRelationship f t m w)) a b)
      <-> is_Some (lookup_edge (World.relationships w) a b)).
Proof.
  destruct (decide (t = "world")) as [->|Hne].
  - rewrite updateRelationship_broadcast. split.
    + intros c. apply lookup_broadcast_loop_is_Some.
    + intros a b. apply lookup_edge_broadcast_loop_is_Some.
  - rewrite updateRelationship_direct by done. split.
    + intros c. by rewrite !lookup_update_edge_is_Some.
    + intros a b. by rewrite !lookup_edge_update_edge_is_Some.
Qed.

Lemma graph_known_enter i w :
  graph_known w -> graph_known (fst (World.enter_core uuidv4 Date_now i w)).
Proof.
  intros (Hact & Hmap & Hedge). rewrite enter_core_eq. cbn zeta. cbn [fst].
  set (newId := Inhabitant.id i).
  set (e := fresh_event uuidv4 Date_now _ w).
  set (w' := World.mk _ _ _ _).
  assert (Hnew : entered w' newId).
  { exists e, (Inhabitant.name i), (Inhabitant.kind i). split; [|done].
    apply elem_of_app. right. apply list_elem_of_here. }
  assert (Hold : forall t, entered w t -> entered w' t)
    by (intros t; by apply (entered_mono w w' e)).
  assert (Hkeys : forall t, t ∈ JsMap.keys (JsMap.set newId i (World.inhabitants w)) ->
                            t = newId \/ t ∈ JsMap.keys (World.inhabitants w)).
  { intros t. rewrite JsMap_keys_set. destruct (JsMap.has _ _); [by right|].
    intros [?|Hlast]%elem_of_app; [by right|].
    apply list_elem_of_singleton in Hlast. by left. }
  assert (Hmap0 : forall t, is_Some (<[newId := ∅]> (World.relationships w) !! t) ->
                            entered w' t).
  { intros t. destruct (decide (t = newId)) as [->|Hne]; [done|].
    rewrite lookup_insert_ne by done. auto. }
  clearbody e. subst w'.
  unfold graph_known. cbn [World.inhabitants World.relationships]. repeat split.
  - intros t Ht. apply lookup_enter_fold_is_Some.
    destruct (Hkeys t Ht) as [->|Hin].
    + by rewrite lookup_insert_eq.
    + destruct (decide (t = newId)) as [->|Hne];
        [by rewrite lookup_insert_eq|].
      rewrite lookup_insert_ne by done. by apply Hact.
  - intros t Ht. apply lookup_enter_fold_is_Some in Ht. by apply Hmap0.
  - intros a t Ht.
    destruct (lookup_edge_enter_fold newId
                (JsMap.keys (JsMap.set newId i (World.inhabitants w)))
                (<[newId := ∅]> (World.relationships w)) a t) as [Hyes Hno].
    destruct (decide (linked_by_enter newId
                        (JsMap.keys (JsMap.set newId i (World.inhabitants w)))
                        (<[newId := ∅]> (World.relationships w)) a t))
      as [[(_ & Hin & Hne & _)|(-> & _)]|Hnot]; [|done|].
    + destruct (Hkeys t Hin) as [?|Hin']; [done|]. auto.
    + rewrite (Hno Hnot) in Ht. unfold lookup_edge in Ht.
      destruct (decide (a = newId)) as [->|Hne].
      * rewrite lookup_insert_eq in Ht. simpl in Ht.
        rewrite lookup_empty in Ht. by destruct Ht.
      * rewrite lookup_insert_ne in Ht by done. apply Hold. by eapply Hedge.
Qed.

Lemma graph_known_leave i w w' e :
  graph_known w -> World.leave_core uuidv4 Date_now i w = Some (w', e) ->
  graph_known w'.
Proof.
  intros (Hact & Hmap & Hedge) (_ & _ & _ & Hmem & _ & Hinh & Hrel)%leave_core_inv.
  unfold graph_known. rewrite Hinh, Hrel. repeat split.
  - intros t Ht. apply Hact. by eapply JsMap_keys_delete.
  - intros t Ht. eapply entered_mono; eauto.
  - intros a t Ht. eapply entered_mono; eauto.
Qed.

Lemma graph_known_message f t c r meta w w' e :
  graph_known w ->
  World.processMessage_core uuidv4 Date_now f t c r meta w = Some (w', e) ->
  graph_known w'.
Proof.
  intros (Hact & Hmap & Hedge) Hcore.
  destruct (JsMap.get f (World.inhabitants w)) as [sender|] eqn:Hget;
    [|by rewrite processMessage_core_None in Hcore].
  rewrite (processMessage_core_Some _ _ _ _ _ _ _ _ _ Hget) in Hcore.
  cbn zeta in Hcore. injection Hcore as <- <-.
  set (m0 := fresh_event uuidv4 Date_now _ w).
  destruct (updateRelationship_same_graph f t m0
              (fst (World.recordEvent uuidv4 Date_now (Event.data m0) w)))
    as [Hsame_map Hsame_edge].
  cbn [fst World.recordEvent World.relationships] in Hsame_map, Hsame_edge.
  set (w' := World.mk _ _ _ _).
  assert (Hold : forall x, entered w x -> entered w' x)
    by (intros x; by eapply entered_mono).
  unfold graph_known. subst w'.
  cbn [World.inhabitants World.relationships]. repeat split.
  - intros x Hx. apply Hsame_map. by apply Hact.
  - intros x Hx. apply Hold, Hmap. by apply Hsame_map.
  - intros a x Hx. apply Hold. eapply Hedge. by apply Hsame_edge.
Qed.

Lemma graph_known_reachable (fuel : nat) (ops : list World.Op) :
  graph_known (World.steps uuidv4 Date_now listeners fuel ops World.empty).
Proof.
  apply steps_keeps.
  - exact graph_known_enter.
  - exact graph_known_leave.
  - exact graph_known_message.
  - repeat split.
    + intros t Ht. by apply elem_of_nil in Ht.
    + intros t [x Hx]. cbn in Hx. by rewrite lookup_empty in Hx.
    + intros a t [x Hx]. unfold lookup_edge in Hx. cbn in Hx.
      by rewrite lookup_empty in Hx.
Qed.

(** In a world the host has driven from [new World()], an id that never
    entered (and is not the broadcast target) is an unknown id. *)
Lemma never_entered_is_unknown (fuel : nat) (ops : list World.Op) (t : string) :
  let w := World.steps uuidv4 Date_now listeners fuel ops World.empty in
  t ≠ "world" -> ~ entered w t -> unknown_id w t.
Proof.
  intros w Hworld Hnever.
  destruct (graph_known_reachable fuel ops) as (_ & Hmap & Hedge). fold w in Hmap, Hedge.
  repeat split; [done| |].
  - destruct (World.relationships w !! t) eqn:E; [|done].
    exfalso. apply Hnever, Hmap. by rewrite E.
  - intros a. destruct (lookup_edge (World.relationships w) a t) eqn:E; [|done].
    exfalso. apply Hnever, (Hedge a). by rewrite E.
Qed.


End KnownIds.

(* ================================================================== *)
(** * Further properties of the world engine *)

Section AppendOnly.
Variable uuidv4 : nat -> string.
Variable Date_now : nat -> Z.
Variable listeners : World.Listeners.

(** X1. World memory is append-only: whatever calls the host makes and
    whatever the handlers do during emission, the events recorded before
    are still there afterwards, unchanged and in the same places. *)
Theorem memory_append_only (fuel : nat) (ops : list World.Op) (w : World.t) :
  World.memory w `prefix_of`
  World.memory (World.steps uuidv4 Date_now listeners fuel ops w).
Proof.
  apply (steps_keeps uuidv4 Date_now listeners
           (fun w' => World.memory w `prefix_of` World.memory w')).
  - intros i w' Hw'. rewrite enter_core_eq. cbn. by apply prefix_app_r.
  - intros i w' w'' e Hw' (_ & _ & _ & -> & _)%leave_core_inv.
    by apply prefix_app_r.
  - intros f t c r m w' w'' e Hw' (_ & _ & _ & _ & -> & _)%processMessage_core_inv.
    by apply prefix_app_r.
  - done.
Qed.

End AppendOnly.

Section MoreMapFacts.
Context {V : Type}.

Lemma JsMap_not_keys_get (k : string) (m : list (string * V)) :
  k ∉ JsMap.keys m -> JsMap.get k m = None.
Proof.
  induction m as [|[k' v'] m IH]; simpl; [done|].
  intros Hnot. destruct (String.eqb_spec k' k) as [->|Hne].
  - exfalso. apply Hnot. apply list_elem_of_here.
  - apply IH. intros Hin. apply Hnot. by apply list_elem_of_further.
Qed.

Lemma JsMap_get_delete_same (k : string) (m : list (string * V)) :
  JsMap.wf m -> JsMap.get k (JsMap.delete k m) = None.
Proof.
  unfold JsMap.wf. induction m as [|[k' v'] m IH]; simpl; [done|].
  intros [Hk Hnd]%NoDup_cons.
  destruct (String.eqb_spec k' k) as [->|Hne]; simpl.
  - by apply JsMap_not_keys_get.
  - destruct (String.eqb_spec k' k); [done|]. by apply IH.
Qed.

Lemma JsMap_get_delete_other (k k0 : string) (m : list (string * V)) :
  k0 ≠ k -> JsMap.get k0 (JsMap.delete k m) = JsMap.get k0 m.
Proof.
  intros Hne. induction m as [|[k' v'] m IH]; simpl; [done|].
  destruct (String.eqb_spec k' k) as [->|Hne']; simpl.
  - by destruct (String.eqb_spec k k0).
  - by rewrite IH.
Qed.

End MoreMapFacts.

Section QuietOperations.
Variable uuidv4 : nat -> string.
Variable Date_now : nat -> Z.
Variable listeners : World.Listeners.
Hypothesis listeners_quiet : quiet listeners.


Lemma leave_quiet fuel i w :
  World.leave uuidv4 Date_now listeners fuel i w
  = match World.leave_core uuidv4 Date_now i w with
    | Some (w1, ev) => (w1, Returned (Some ev))
    | None => (w, Returned None)
    end.
Proof.
  unfold World.leave, World.leave_with.
  destruct (World.leave_core uuidv4 Date_now i w) as [[w1 ev]|]; [|done].
  by rewrite (emit_quiet_returns uuidv4 Date_now listeners listeners_quiet).
Qed.

Lemma processMessage_quiet fuel f t c r meta w :
  World.processMessage uuidv4 Date_now listeners fuel f t c r meta w
  = match World.processMessage_core uuidv4 Date_now f t c r meta w with
    | Some (w1, m) => (w1, Returned (Some m))
    | None => (w, Returned None)
    end.
Proof.
  unfold World.processMessage, World.processMessage_with.
  destruct (World.processMessage_core uuidv4 Date_now f t c r meta w)
    as [[w1 ev]|]; [|done].
  by rewrite (emit_quiet_returns uuidv4 Date_now listeners listeners_quiet).
Qed.

(** X2. Leaving is final until the next [enter]: once [leave(id)] has run
    (with handlers that leave the world alone), a second [leave(id)] and any
    [processMessage] from [id] return null and change nothing. *)
Theorem leave_is_final (fuel : nat) (id to : string) (content replyTo : option string)
        (meta : Meta) (w : World.t) :
  JsMap.wf (World.inhabitants w) ->
  let w1 := fst (World.leave uuidv4 Date_now listeners fuel id w) in
  World.leave uuidv4 Date_now listeners fuel id w1 = (w1, Returned None) /\
  World.processMessage uuidv4 Date_now listeners fuel id to content replyTo meta w1
  = (w1, Returned None).
Proof.
  intros Hwf w1.
  assert (Hgone : JsMap.get id (World.inhabitants w1) = None).
  { unfold w1. rewrite leave_quiet.
    destruct (World.leave_core uuidv4 Date_now id w) as [[w' ev]|] eqn:E.
    - apply leave_core_inv in E as (_ & _ & _ & _ & _ & Hinh & _).
      cbn [fst]. rewrite Hinh. by apply JsMap_get_delete_same.
    - unfold World.leave_core in E. cbn [fst].
      destruct (JsMap.get id (World.inhabitants w)); [|done].
      by destruct (World.recordEvent _ _ _ _). }
  split.
  - rewrite leave_quiet. unfold World.leave_core. by rewrite Hgone.
  - rewrite processMessage_quiet. by rewrite processMessage_core_None.
Qed.

(** X3. [leave] deletes no edge and touches no other inhabitant: the
    relationship graph is what it was, every other id is as active or
    inactive as before, and exactly one event is recorded when [id] was
    active, none when it was not. *)
Theorem leave_keeps_relationships (fuel : nat) (id : string) (w : World.t) :
  let w1 := fst (World.leave uuidv4 Date_now listeners fuel id w) in
  World.relationships w1 = World.relationships w /\
  (forall k, k ≠ id ->
             JsMap.get k (World.inhabitants w1) = JsMap.get k (World.inhabitants w)) /\
  length (World.memory w1)
  = length (World.memory w)
    + (if JsMap.has id (World.inhabitants w) then 1 else 0).
Proof.
  cbn zeta. rewrite leave_quiet. unfold JsMap.has.
  destruct (World.leave_core uuidv4 Date_now id w) as [[w' ev]|] eqn:E.
  - apply leave_core_inv in E as (inh & Hget & _ & Hmem & _ & Hinh & Hrel).
    cbn [fst]. rewrite Hget, Hmem, Hinh, Hrel, length_app. repeat split.
    intros k Hk. by apply JsMap_get_delete_other.
  - unfold World.leave_core in E.
    destruct (JsMap.get id (World.inhabitants w)); [by destruct (World.recordEvent _ _ _ _)|].
    cbn [fst]. repeat split. lia.
Qed.



End QuietOperations.

Section EdgeEvolution.

(** How an edge that exists before an update relates to the edge after it,
    for any relation [R] that every touch respects. *)
Variable R : Relationship -> Relationship -> Prop.
Hypothesis R_refl : forall r, R r r.
Hypothesis R_trans : forall r1 r2 r3, R r1 r2 -> R r2 r3 -> R r1 r3.

Lemma update_edge_related g a0 b0 rels a b r :
  (forall r, R r (g r)) ->
  lookup_edge rels a b = Some r ->
  exists r', lookup_edge (World.update_edge g a0 b0 rels) a b = Some r' /\ R r r'.
Proof.
  intros Hg Hr. rewrite lookup_edge_update_edge.
  destruct (decide _) as [[-> ->]|_]; [|eauto].
  rewrite Hr. simpl. eauto.
Qed.

Lemma broadcast_loop_related n f keys rels a b r :
  (forall r, R r (World.broadcast_touch n r)) ->
  lookup_edge rels a b = Some r ->
  exists r', lookup_edge (broadcast_loop n f keys rels) a b = Some r' /\ R r r'.
Proof.
  intros Hg. unfold broadcast_loop. revert rels r.
  induction keys as [|k keys IH]; intros rels r Hr; simpl; [eauto|].
  destruct (negb _); [|eauto].
  destruct (update_edge_related (World.broadcast_touch n) f k rels a b r Hg Hr)
    as (r1 & Hr1 & HR1).
  destruct (IH _ _ Hr1) as (r2 & Hr2 & HR2). eauto.
Qed.

Lemma updateRelationship_related f t m w a b r :
  (forall n r, R r (World.broadcast_touch n r)) ->
  (forall inc n r, R r (World.direct_touch inc n r)) ->
  lookup_edge (World.relationships w) a b = Some r ->
  exists r',
    lookup_edge (World.relationships (World.updateRelationship f t m w)) a b = Some r'
    /\ R r r'.
Proof.
  intros Hb Hd Hr. destruct (decide (t = "world")) as [->|Hne].
  - rewrite updateRelationship_broadcast. by apply broadcast_loop_related.
  - rewrite updateRelationship_direct by done.
    destruct (update_edge_related (World.direct_touch 0.1 (Event.sequence m))
                f t _ a b r (Hd _ _) Hr) as (r1 & Hr1 & HR1).
    destruct (update_edge_related (World.direct_touch 0.05 (Event.sequence m))
                t f _ a b r1 (Hd _ _) Hr1) as (r2 & Hr2 & HR2).
    eauto.
Qed.

End EdgeEvolution.

Section EdgeFacts.

Lemma updateRelationship_preserves (Q : Relationship -> Prop) f t m w :
  (forall n r, Q r -> Q (World.broadcast_touch n r)) ->
  (forall inc n r, Q r -> Q (World.direct_touch inc n r)) ->
  (forall a b r, lookup_edge (World.relationships w) a b = Some r -> Q r) ->
  forall a b r,
    lookup_edge (World.relationships (World.updateRelationship f t m w)) a b = Some r ->
    Q r.
Proof.
  intros Hb Hd Hall a b r' Hr'.
  destruct (updateRelationship_same_graph f t m w) as [_ Hsame].
  destruct (proj1 (Hsame a b)) as [r Hr]; [by rewrite Hr'|].
  destruct (updateRelationship_related (fun r1 r2 => Q r1 -> Q r2)
              (fun _ H => H) (fun _ _ _ H1 H2 H => H2 (H1 H))
              f t m w a b r Hb Hd Hr) as (r'' & Hr'' & HQ).
  rewrite Hr' in Hr''. injection Hr'' as <-. apply HQ. by eapply Hall.
Qed.

Lemma lookup_edge_broadcast_loop_other n f keys rels a b :
  a ≠ f -> lookup_edge (broadcast_loop n f keys rels) a b = lookup_edge rels a b.
Proof.
  intros Hne. unfold broadcast_loop. revert rels.
  induction keys as [|k keys IH]; intros rels; simpl; [done|].
  rewrite IH. destruct (negb _); [|done].
  rewrite lookup_edge_update_edge. by rewrite decide_False by (by intros [? _]).
Qed.

(** X8. A message never sets a relationship back and never creates one:
    under [updateRelationship] an edge that exists keeps existing, its
    interaction count does not go down and a non-default model stays
    non-default; a pair without an edge stays without one. *)
Theorem updateRelationship_never_demotes
        (f t : string) (m : Event.t) (w : World.t) (a b : string) :
  match lookup_edge (World.relationships w) a b with
  | Some r =>
      exists r',
        lookup_edge (World.relationships (World.updateRelationship f t m w)) a b
        = Some r' /\
        interactions r <= interactions r' /\
        (model r = non_default -> model r' = non_default)
  | None =>
      lookup_edge (World.relationships (World.updateRelationship f t m w)) a b = None
  end.
Proof.
  destruct (lookup_edge (World.relationships w) a b) as [r|] eqn:Hr.
  - apply (updateRelationship_related
             (fun r r' => interactions r <= interactions r' /\
                          (model r = non_default -> model r' = non_default))).
    + by intros r0.
    + intros r1 r2 r3 [? ?] [? ?]. split; [lia|auto].
    + intros n r0. split; [simpl; lia|].
      simpl. intros ->. by destruct (Nat.ltb _ _).
    + intros inc n r0. split; [simpl; lia|].
      simpl. intros ->. by destruct (Nat.ltb _ _).
    + done.
  - destruct (updateRelationship_same_graph f t m w) as [_ Hsame].
    destruct (lookup_edge (World.relationships (World.updateRelationship f t m w)) a b)
      as [r'|] eqn:E; [|done].
    destruct (proj1 (Hsame a b)) as [r Hr']; [by rewrite E|]. congruence.
Qed.

(** X9. A broadcast is one-sided and adds no entanglement: it leaves every
    edge that does not start at the sender exactly as it was (the
    listeners' edges towards the sender included), and the entanglement of
    every edge as it was. *)
Theorem broadcast_is_one_sided (f : string) (m : Event.t) (w : World.t) (a b : string) :
  let w' := World.updateRelationship f "world" m w in
  (a ≠ f ->
   lookup_edge (World.relationships w') a b = lookup_edge (World.relationships w) a b) /\
  entanglement <$> lookup_edge (World.relationships w') a b
  = entanglement <$> lookup_edge (World.relationships w) a b.
Proof.
  cbn zeta. rewrite updateRelationship_broadcast. split.
  - apply lookup_edge_broadcast_loop_other.
  - destruct (lookup_edge (World.relationships w) a b) as [r|] eqn:Hr.
    + destruct (broadcast_loop_related (fun r r' => entanglement r' = entanglement r)
                  (fun _ => eq_refl) (fun _ _ _ H1 H2 => eq_trans H2 H1)
                  (Event.sequence m) f (JsMap.keys (World.inhabitants w)) _ a b r
                  (fun _ => eq_refl) Hr) as (r' & -> & Hent).
      simpl. by rewrite Hent.
    + destruct (lookup_edge (broadcast_loop _ _ _ _) a b) as [r'|] eqn:E; [|done].
      destruct (proj1 (lookup_edge_broadcast_loop_is_Some
                         (Event.sequence m) f (JsMap.keys (World.inhabitants w))
                         (World.relationships w) a b)) as [r Hr'];
        [by rewrite E|congruence].
Qed.

(** X10. A direct message is local: it touches the edge from the sender to
    the addressee and the edge back, and no other edge of the graph. *)
Theorem direct_message_is_local
        (f t : string) (m : Event.t) (w : World.t) (a b : string) :
  t ≠ "world" ->
  ~ (a = f /\ b = t) ->
  ~ (a = t /\ b = f) ->
  lookup_edge (World.relationships (World.updateRelationship f t m w)) a b
  = lookup_edge (World.relationships w) a b.
Proof.
  intros Hne H1 H2. rewrite updateRelationship_direct by done.
  rewrite !lookup_edge_update_edge. by rewrite !decide_False.
Qed.

End EdgeFacts.

Section EdgeInvariants.
Variable uuidv4 : nat -> string.
Variable Date_now : nat -> Z.
Variable listeners : World.Listeners.

Lemma gt_Math_min_1 (x : float) : JsNum.gt (JsNum.Math_min 1 x) 1 = false.
Proof.
  unfold JsNum.gt, JsNum.Math_min.
  change (is_nan 1) with false. cbn [orb].
  destruct (is_nan x); [reflexivity|].
  destruct (PrimFloat.ltb 1 x) eqn:E1; [reflexivity|].
  destruct (PrimFloat.ltb x 1); [exact E1|].
  change (get_sign 1) with false. exact E1.
Qed.

Lemma processMessage_core_relationships f t c r meta w w' e :
  World.processMessage_core uuidv4 Date_now f t c r meta w = Some (w', e) ->
  exists m0 w1,
    World.relationships w1 = World.relationships w /\
    World.inhabitants w1 = World.inhabitants w /\
    World.relationships w' = World.relationships (World.updateRelationship f t m0 w1).
Proof.
  intros Hcore.
  destruct (JsMap.get f (World.inhabitants w)) as [sender|] eqn:Hget;
    [|by rewrite processMessage_core_None in Hcore].
  rewrite (processMessage_core_Some _ _ _ _ _ _ _ _ _ Hget) in Hcore.
  cbn zeta in Hcore. injection Hcore as <- <-.
  exists (fresh_event uuidv4 Date_now
            (Event.MessageData f (Inhabitant.name sender) t c r meta) w),
         (fst (World.recordEvent uuidv4 Date_now
                 (Event.MessageData f (Inhabitant.name sender) t c r meta) w)).
  repeat split; reflexivity.
Qed.

Lemma edges_sane_reachable (fuel : nat) (ops : list World.Op) :
  edges_sane (World.steps uuidv4 Date_now listeners fuel ops World.empty).
Proof.
  apply steps_keeps.
  - intros i w Hw a b r. rewrite enter_core_eq. cbn zeta.
    cbn [fst World.relationships].
    set (newId := Inhabitant.id i). set (keys := JsMap.keys _). intros Hr.
    destruct (lookup_edge_enter_fold newId keys
                (<[newId := ∅]> (World.relationships w)) a b) as [Hyes Hno].
    destruct (decide (linked_by_enter newId keys
                        (<[newId := ∅]> (World.relationships w)) a b)) as [Hl|Hn].
    + rewrite (Hyes Hl) in Hr. injection Hr as <-. split; [|reflexivity].
      destruct Hl as [(-> & _ & ? & _)|(-> & _ & ? & _)]; congruence.
    + rewrite (Hno Hn) in Hr. unfold lookup_edge in Hr.
      destruct (decide (a = newId)) as [->|Hne].
      * rewrite lookup_insert_eq in Hr. simpl in Hr. by rewrite lookup_empty in Hr.
      * rewrite lookup_insert_ne in Hr by done. by apply Hw.
  - intros i w w' e Hw (_ & _ & _ & _ & _ & _ & Hrel)%leave_core_inv a b r.
    rewrite Hrel. apply Hw.
  - intros f t c r0 meta w w' e Hw
           (m0 & w1 & Hrel1 & _ & Hrel')%processMessage_core_relationships.
    intros a b r. rewrite Hrel'. intros Hr. split.
    + intros ->.
      destruct (updateRelationship_same_graph f t m0 w1) as [_ Hsame].
      destruct (proj1 (Hsame b b)) as [r1 Hr1]; [by rewrite Hr|].
      rewrite Hrel1 in Hr1. by destruct (Hw b b r1 Hr1).
    + revert a b r Hr.
      apply (updateRelationship_preserves
               (fun r => JsNum.gt (entanglement r) 1 = false)).
      * by intros n r.
      * intros inc n r _. apply gt_Math_min_1.
      * intros a b r Hr. rewrite Hrel1 in Hr. by destruct (Hw a b r Hr).
  - intros a b r Hr. unfold lookup_edge in Hr. cbn in Hr.
    by rewrite lookup_empty in Hr.
Qed.

(** X6. No inhabitant ever has an edge to itself: in every world reached
    from [new World()], whatever the calls and the handlers, the graph has
    no entry from an id to the same id. *)
Theorem no_self_edges (fuel : nat) (ops : list World.Op) (a : string) :
  lookup_edge
    (World.relationships (World.steps uuidv4 Date_now listeners fuel ops World.empty))
    a a = None.
Proof.
  destruct (lookup_edge _ a a) as [r|] eqn:Hr; [|done].
  by destruct (edges_sane_reachable fuel ops a a r Hr).
Qed.

(** X7. Entanglement saturates at 1: in every world reached from
    [new World()], whatever the calls and the handlers, no edge has an
    entanglement greater than 1. *)
Theorem entanglement_never_exceeds_one
        (fuel : nat) (ops : list World.Op) (a b : string) (r : Relationship) :
  lookup_edge
    (World.relationships (World.steps uuidv4 Date_now listeners fuel ops World.empty))
    a b = Some r ->
  JsNum.gt (entanglement r) 1 = false.
Proof. intros Hr. by destruct (edges_sane_reachable fuel ops a b r Hr). Qed.

End EdgeInvariants.

Section Queries.
Variable uuidv4 : nat -> string.
Variable Date_now : nat -> Z.
Variable listeners : World.Listeners.

(** X11. [getRecentMessages(count)] returns message events only, the last
    ones recorded, in order: [count] of them when there are that many,
    all of them otherwise; with a [count] of 0 it returns every message of
    memory, not none ([slice(-0)] is [slice(0)]). *)
Theorem getRecentMessages_bounds (count : nat) (w : World.t) :
  let messages := List.filter Event.is_message (World.memory w) in
  Forall (fun e => Event.is_message e = true) (World.getRecentMessages count w) /\
  World.getRecentMessages count w `suffix_of` messages /\
  length (World.getRecentMessages count w)
  = match count with
    | O => length messages
    | S _ => Nat.min count (length messages)
    end.
Proof.
  cbn zeta. unfold World.getRecentMessages, JsArray.slice_last.
  assert (Hall : Forall (fun e => Event.is_message e = true)
                        (List.filter Event.is_message (World.memory w))).
  { apply List.Forall_forall. intros e He. by apply List.filter_In in He as [_ ?]. }
  destruct count as [|n].
  - repeat split; done.
  - repeat split.
    + by apply Forall_drop.
    + apply suffix_drop.
    + rewrite length_skipn. lia.
Qed.

Hypothesis listeners_quiet : quiet listeners.

(** X12. An accepted message shows in [getState()] as one more message and
    one more event, with the inhabitants as they were (the handlers leaving
    the world alone). *)
Theorem getState_after_message
        (fuel : nat) (from to : string) (content replyTo : option string)
        (meta : Meta) (w : World.t) (sender : Inhabitant.t) :
  JsMap.get from (World.inhabitants w) = Some sender ->
  let s := World.getState w in
  let s' := World.getState
              (fst (World.processMessage uuidv4 Date_now listeners fuel
                      from to content replyTo meta w)) in
  World.State.messageCount s' = S (World.State.messageCount s) /\
  World.State.totalEvents s' = S (World.State.totalEvents s) /\
  World.State.inhabitantCount s' = World.State.inhabitantCount s /\
  World.State.inhabitants s' = World.State.inhabitants s.
Proof.
  intros Hget. cbn zeta.
  rewrite (processMessage_quiet uuidv4 Date_now listeners listeners_quiet).
  destruct (World.processMessage_core uuidv4 Date_now from to content replyTo meta w)
    as [[w1 m]|] eqn:Hcore;
    [|by rewrite (processMessage_core_Some _ _ _ _ _ _ _ _ _ Hget) in Hcore].
  apply processMessage_core_inv in Hcore as (s0 & cls & _ & -> & Hmem & _ & Hinh).
  unfold World.getState, World.getInhabitants.
  cbn [fst World.State.messageCount World.State.totalEvents
       World.State.inhabitantCount World.State.inhabitants].
  rewrite Hmem, Hinh, List.filter_app, !length_app. cbn. repeat split; lia.
Qed.

End Queries.

Section Handlers.
Variable uuidv4 : nat -> string.
Variable Date_now : nat -> Z.

Lemma emit_loop_snoc call (hs : list World.Handler) (h : World.Handler) d w :
  World.emit_loop call (hs ++ [h]) d w
  = World.bind (World.emit_loop call hs d w) (fun _ => call (h d)).
Proof.
  revert w. induction hs as [|h0 hs IH]; intros w; simpl.
  - by destruct (call (h d) w) as [w1 [[]| |]].
  - destruct (call (h0 d) w) as [w1 [[]| |]]; simpl; [apply IH|done|done].
Qed.

Lemma lookup_on_same ev h (ls : World.Listeners) :
  World.on ev h ls !! ev = Some (default [] (ls !! ev) ++ [h]).
Proof.
  unfold World.on, World.Listeners in *. cbn zeta. rewrite lookup_insert_eq.
  destruct (ls !! ev) eqn:E; [by rewrite E|].
  by rewrite lookup_insert_eq.
Qed.

Lemma lookup_on_other ev ev' h (ls : World.Listeners) :
  ev' ≠ ev -> World.on ev h ls !! ev' = ls !! ev'.
Proof.
  intros Hne. unfold World.on, World.Listeners in *. cbn zeta.
  rewrite lookup_insert_ne by done.
  destruct (ls !! ev); [done|]. by rewrite lookup_insert_ne.
Qed.

(** X13. Handlers run in registration order: a handler added with [on]
    runs after every handler registered earlier for that event has
    returned, and not at all if one of them threw; the handlers of the
    other events are not affected. *)
Theorem on_registers_last
        (call : World.Prog -> World.t -> World.t * Outcome unit)
        (ev : string) (h : World.Handler) (ls : World.Listeners)
        (d : Emitted) (w : World.t) :
  World.emit_with (World.on ev h ls) call ev d w
  = World.bind (World.emit_with ls call ev d w) (fun _ => call (h d)) /\
  (forall ev', ev' ≠ ev ->
               World.emit_with (World.on ev h ls) call ev' d w
               = World.emit_with ls call ev' d w).
Proof.
  unfold World.emit_with. split.
  - rewrite lookup_on_same. simpl. apply emit_loop_snoc.
  - intros ev' Hne. by rewrite lookup_on_other.
Qed.

(** X14. A handler that throws does not undo the message: when the first
    handler of ['message'] throws, the exception comes out of
    [processMessage] instead of the message, and the message is in memory
    all the same, with its sequence number consumed. *)
Theorem handler_exception_keeps_message
        (listeners : World.Listeners) (h : World.Handler) (rest : list World.Handler)
        (fuel : nat) (from to : string) (content replyTo : option string)
        (meta : Meta) (w : World.t) (sender : Inhabitant.t) :
  listeners !! "message" = Some (h :: rest) ->
  (forall d, h d = World.Throw) ->
  JsMap.get from (World.inhabitants w) = Some sender ->
  exists w1 m,
    World.processMessage uuidv4 Date_now listeners fuel from to content replyTo meta w
    = (w1, Threw) /\
    World.memory w1 = World.memory w ++ [m] /\
    Event.data m
    = Event.MessageData from (Inhabitant.name sender) to content replyTo meta /\
    World.sequenceCounter w1 = S (World.sequenceCounter w).
Proof.
  intros Hls Hh Hget.
  destruct (World.processMessage_core uuidv4 Date_now from to content replyTo meta w)
    as [[w1 m]|] eqn:Hcore;
    [|by rewrite (processMessage_core_Some _ _ _ _ _ _ _ _ _ Hget) in Hcore].
  exists w1, m. split.
  - unfold World.processMessage, World.processMessage_with. rewrite Hcore.
    unfold World.emit, World.emit_with. rewrite Hls. simpl.
    rewrite Hh. by destruct fuel.
  - apply processMessage_core_inv in Hcore
      as (s0 & cls & Hget' & -> & Hmem & Hcnt & _).
    rewrite Hget in Hget'. injection Hget' as <-. by repeat split.
Qed.

End Handlers.

(* ================================================================== *)
(** * Further properties of the agent engine *)

Section MoreStringFacts.

Lemma length_append (s1 s2 : string) :
  String.length (s1 +:+ s2) = String.length s1 + String.length s2.
Proof. induction s1 as [|c s1 IH]; simpl; [done|]. by rewrite IH. Qed.

Lemma length_take (n : nat) (s : string) :
  String.length (JsString.take n s) = Nat.min n (String.length s).
Proof.
  revert s. induction n as [|n IH]; intros [|c s]; simpl; try done.
  by rewrite IH.
Qed.

Lemma chars_append (s1 s2 : string) :
  list_ascii_of_string (s1 +:+ s2)
  = list_ascii_of_string s1 ++ list_ascii_of_string s2.
Proof. induction s1 as [|c s1 IH]; simpl; [done|]. by rewrite IH. Qed.

Lemma lower_char_idempotent (c : ascii) :
  JsString.lower_char (JsString.lower_char c) = JsString.lower_char c.
Proof. destruct c as [[] [] [] [] [] [] [] []]; reflexivity. Qed.

Lemma chars_toLowerCase (s : string) :
  list_ascii_of_string (JsString.toLowerCase s)
  = map JsString.lower_char (list_ascii_of_string s).
Proof. induction s as [|c s IH]; simpl; [done|]. by rewrite IH. Qed.

Lemma toLowerCase_fixed (s : string) :
  Forall (fun c => JsString.lower_char c = c) (list_ascii_of_string s) ->
  JsString.toLowerCase s = s.
Proof.
  induction s as [|c s IH]; simpl; [done|].
  intros [Hc Hs]%Forall_cons. by rewrite Hc, IH.
Qed.

(** Every piece of a split is made of code units of the piece being read
    and of code units of the text that are not white space. *)
Lemma split_go_pieces (Q : ascii -> Prop) (cur : string) (in_run : bool) (s p : string) :
  Forall Q (list_ascii_of_string cur) ->
  Forall (fun c => JsString.is_space c = false -> Q c) (list_ascii_of_string s) ->
  In p (JsString.split_go cur in_run s) ->
  Forall Q (list_ascii_of_string p).
Proof.
  revert cur in_run. induction s as [|c s IH]; intros cur in_run Hcur Hs; simpl.
  - by intros [<-|[]].
  - apply Forall_cons in Hs as [Hc Hs].
    destruct (JsString.is_space c) eqn:Hsp.
    + destruct in_run; simpl.
      * apply IH; [constructor|done].
      * intros [<-|Hin]; [done|]. revert Hin. apply IH; [constructor|done].
    + apply IH; [|done]. rewrite chars_append. apply Forall_app. split; [done|].
      simpl. constructor; [by apply Hc|constructor].
Qed.

Lemma split_ws_lowercase_pieces (s p : string) :
  In p (JsString.split_ws (JsString.toLowerCase s)) ->
  Forall (fun c => JsString.is_space c = false /\ JsString.lower_char c = c)
         (list_ascii_of_string p).
Proof.
  apply split_go_pieces; [constructor|].
  rewrite chars_toLowerCase. apply Forall_fmap, Forall_true.
  intros c. simpl. intros Hsp. split; [done|]. apply lower_char_idempotent.
Qed.

Lemma or_null_head_In (words : list string) (t : string) :
  World.or_null (head words) = Some t -> In t words.
Proof.
  destruct words as [|w words]; simpl; [done|].
  unfold World.or_null. destruct (JsString.truthy (Some w)); [|done].
  intros [= ->]. by left.
Qed.

(** A topic read off a content by keeping the first word longer than
    [n] characters. *)
Lemma first_long_word_shape (n : nat) (c t : string) :
  World.or_null
    (head (List.filter (fun w => Nat.ltb n (String.length w))
                       (JsString.split_ws (JsString.toLowerCase c)))) = Some t ->
  n < String.length t /\
  JsString.toLowerCase t = t /\
  Forall (fun ch => JsString.is_space ch = false) (list_ascii_of_string t).
Proof.
  intros Hin%or_null_head_In. apply List.filter_In in Hin as [Hin Hlen].
  apply Nat.ltb_lt in Hlen. apply split_ws_lowercase_pieces in Hin.
  split; [done|]. split.
  - apply toLowerCase_fixed. eapply Forall_impl; [exact Hin|]. by intros ch [_ ?].
  - eapply Forall_impl; [exact Hin|]. by intros ch [? _].
Qed.

(** X15. A topic is one lower-case word: whenever the world's
    [extractTopic] or the agent's [extractConversationTopic] yields a topic,
    it is longer than 4 (for the agent: 5) characters, unchanged by
    [toLowerCase], and free of white space. *)
Theorem topics_are_single_lowercase_words (content : option string) (t : string) :
  (World.extractTopic content = Some t ->
   4 < String.length t /\ JsString.toLowerCase t = t /\
   Forall (fun ch => JsString.is_space ch = false) (list_ascii_of_string t)) /\
  (Agent.extractConversationTopic content = Some t ->
   5 < String.length t /\ JsString.toLowerCase t = t /\
   Forall (fun ch => JsString.is_space ch = false) (list_ascii_of_string t)).
Proof.
  unfold World.extractTopic, Agent.extractConversationTopic.
  destruct content as [c|]; [|by split].
  destruct (negb (JsString.truthy (Some c))); [by split|].
  split; apply first_long_word_shape.
Qed.

(** X16. [summarize] never returns more than 80 characters: a content of
    at most 80 characters is returned as it is, a longer one is cut to its
    first 77 characters followed by three dots (80 characters), and an
    absent content gives the empty string. *)
Theorem summarize_at_most_80 (content : option string) :
  String.length (Agent.summarize content) <= 80 /\
  (content = None -> Agent.summarize content = "") /\
  (forall s, content = Some s -> String.length s <= 80 -> Agent.summarize content = s) /\
  (forall s, content = Some s -> 80 < String.length s ->
             Agent.summarize content = JsString.take 77 s +:+ "..." /\
             String.length (Agent.summarize content) = 80).
Proof.
  unfold Agent.summarize. destruct content as [s|].
  2:{ split; [simpl; lia|]. split; [done|]. split; intros s0; discriminate. }
  assert (Hlong : 80 < String.length s ->
                  String.length (JsString.take 77 s +:+ "...") = 80).
  { intros Hlen. rewrite length_append, length_take.
    change (String.length "...") with 3. lia. }
  destruct s as [|c s].
  { split; [simpl; lia|]. split; [done|]. split.
    - by intros s0 [= <-].
    - intros s0 [= <-] Hlen. simpl in Hlen. lia. }
  cbn [JsString.truthy negb].
  destruct (Nat.leb (String.length (String c s)) 80) eqn:E.
  - apply Nat.leb_le in E. split; [done|]. split; [done|]. split.
    + by intros s0 [= <-].
    + intros s0 [= <-] Hlen. lia.
  - apply Nat.leb_gt in E. specialize (Hlong E).
    split; [lia|]. split; [done|]. split.
    + intros s0 [= <-] Hlen. lia.
    + by intros s0 [= <-].
Qed.

End MoreStringFacts.

Section MemoryFacts.

Lemma integrateExperience_topics (message : Event.t) (evaluation : float) (a : Agent.t) :
  Agent.conversationTopics (Agent.integrateExperience message evaluation a) =
  match Agent.extractConversationTopic (Event.content message) with
  | Some topic =>
      let topics := Agent.conversationTopics a ++ [topic] in
      if Nat.ltb 20 (length topics) then JsArray.slice_last 20 topics else topics
  | None => Agent.conversationTopics a
  end.
Proof. reflexivity. Qed.

(** X17. The agent's memory stays bounded: [integrateExperience] never
    lets an experience log of at most 100 entries grow beyond 100, nor a
    topic window of at most 20 entries beyond 20. *)
Theorem integrateExperience_bounded
        (message : Event.t) (evaluation : float) (a : Agent.t) :
  (length (Agent.experienceLog a) <= 100 ->
   length (Agent.experienceLog (Agent.integrateExperience message evaluation a)) <= 100) /\
  (length (Agent.conversationTopics a) <= 20 ->
   length (Agent.conversationTopics (Agent.integrateExperience message evaluation a))
   <= 20).
Proof.
  split.
  - intros Hlen. rewrite integrateExperience_log. cbn zeta.
    set (pushed := if JsNum.gt evaluation 0.3 then _ else _).
    assert (Hpushed : length pushed <= 101).
    { unfold pushed. destruct (JsNum.gt evaluation 0.3); [|lia].
      rewrite length_app. simpl. lia. }
    destruct (Nat.ltb 100 (length pushed)) eqn:E.
    + unfold JsArray.slice_last.
      rewrite length_app, length_firstn, length_skipn. lia.
    + apply Nat.ltb_ge in E. lia.
  - intros Hlen. rewrite integrateExperience_topics.
    destruct (Agent.extractConversationTopic (Event.content message)); [|done].
    cbn zeta. destruct (Nat.ltb 20 _) eqn:E.
    + unfold JsArray.slice_last. rewrite length_skipn. lia.
    + by apply Nat.ltb_ge in E.
Qed.

(** X18. The experience log only holds salient experiences, in the order
    they came: after [integrateExperience] the log is the old log with at
    most the new record at its end, some entries possibly dropped but none
    reordered or invented, and if every old entry had an evaluation above
    0.3 then so has every entry afterwards. *)
Theorem integrateExperience_keeps_salient_in_order
        (message : Event.t) (evaluation : float) (a : Agent.t) :
  let salient (e : Agent.Experience.t) :=
    JsNum.gt (Agent.Experience.evaluation e) 0.3 = true in
  let log' := Agent.experienceLog (Agent.integrateExperience message evaluation a) in
  log' `sublist_of` (Agent.experienceLog a ++ [experience_of message evaluation]) /\
  (Forall salient (Agent.experienceLog a) -> Forall salient log').
Proof.
  cbn zeta. rewrite integrateExperience_log. cbn zeta.
  set (entry := experience_of message evaluation).
  set (pushed := if JsNum.gt evaluation 0.3 then _ else _).
  assert (Hcut : (if Nat.ltb 100 (length pushed)
                  then firstn 10 pushed ++ JsArray.slice_last 80 pushed
                  else pushed) `sublist_of` pushed).
  { destruct (Nat.ltb 100 (length pushed)) eqn:E; [|done].
    apply Nat.ltb_lt in E. unfold JsArray.slice_last.
    assert (Hparts : take 10 pushed ++ drop (length pushed - 80) pushed
                     `sublist_of` take 10 pushed ++ drop 10 pushed).
    { apply sublist_app; [done|].
      replace (length pushed - 80) with (10 + (length pushed - 90)) by lia.
      rewrite <- drop_drop. apply sublist_drop. }
    by rewrite take_drop in Hparts. }
  split.
  - etransitivity; [exact Hcut|]. unfold pushed.
    destruct (JsNum.gt evaluation 0.3); [done|]. by apply sublist_inserts_r.
  - intros Hold.
    assert (Hpushed : Forall (fun e => JsNum.gt (Agent.Experience.evaluation e) 0.3 = true)
                             pushed).
    { unfold pushed. destruct (JsNum.gt evaluation 0.3) eqn:E; [|done].
      apply Forall_app. split; [done|]. by constructor. }
    rewrite Forall_forall in Hpushed |- *.
    intros e He. apply Hpushed. by eapply elem_of_sublist.
Qed.

(** X19. A message addressed to the agent is always salient: its
    evaluation is above 0.3, and while the log has room
    [integrateExperience] appends its record to the experience log. *)
Theorem direct_message_is_remembered (message : Event.t) (a : Agent.t) :
  Event.to message = Some (Agent.id a) ->
  length (Agent.experienceLog a) < 100 ->
  let a1 := fst (Agent.evaluate message a) in
  let evaluation := snd (Agent.evaluate message a) in
  JsNum.gt evaluation 0.3 = true /\
  Agent.experienceLog (Agent.integrateExperience message evaluation a1)
  = Agent.experienceLog a ++ [experience_of message evaluation].
Proof.
  intros Hto Hlen. cbn zeta.
  assert (Hgt : JsNum.gt (snd (Agent.evaluate message a)) 0.3 = true).
  { rewrite evaluate_weight. cbn zeta. rewrite Hto, strict_eq_same.
    generalize (Agent.strict_eq (Some (Agent.id a)) "world").
    generalize (existsb
                  (fun interest =>
                     JsString.includes
                       (JsString.toLowerCase (Agent.or_empty (Event.content message)))
                       (JsString.toLowerCase interest))
                  (Agent.interests a)).
    generalize (trusted message a).
    generalize (JsString.includes
                  (JsString.toLowerCase (Agent.or_empty (Event.content message))) "?").
    by intros [] [] [] []. }
  split; [exact Hgt|].
  rewrite integrateExperience_log. cbn zeta. rewrite Hgt.
  change (Agent.experienceLog (fst (Agent.evaluate message a)))
    with (Agent.experienceLog a).
  replace (Nat.ltb 100 _) with false; [done|].
  symmetry. apply Nat.ltb_ge. rewrite length_app. simpl. lia.
Qed.

End MemoryFacts.

Section ModelFacts.

(** X20. [updateModel] changes the model of the observed inhabitant and
    nothing else of the agent: the models of all others, the experience
    log, the topics, the cached evaluations and the silence counter are as
    before; the observed one's message count is one more than it was (1 on
    first contact) and its trust is not above 1. *)
Theorem updateModel_is_local (inhabitantId : string) (message : Event.t) (a : Agent.t) :
  let a' := Agent.updateModel inhabitantId message a in
  (forall k, k ≠ inhabitantId -> Agent.models a' !! k = Agent.models a !! k) /\
  Agent.experienceLog a' = Agent.experienceLog a /\
  Agent.conversationTopics a' = Agent.conversationTopics a /\
  Agent.evaluations a' = Agent.evaluations a /\
  Agent.silenceTicks a' = Agent.silenceTicks a /\
  exists mo,
    Agent.models a' !! inhabitantId = Some mo /\
    Agent.ModelOfOther.messageCount mo
    = S (default 0 (Agent.ModelOfOther.messageCount <$> Agent.models a !! inhabitantId)) /\
    JsNum.gt (Agent.ModelOfOther.trust mo) 1 = false.
Proof.
  cbn zeta. unfold Agent.updateModel.
  cbn [Agent.models Agent.experienceLog Agent.conversationTopics Agent.evaluations
       Agent.silenceTicks].
  split; [intros k Hk; by rewrite lookup_insert_ne|].
  repeat (split; [reflexivity|]).
  eexists. rewrite lookup_insert_eq. split; [reflexivity|].
  cbn [Agent.ModelOfOther.messageCount Agent.ModelOfOther.trust]. split.
  - by destruct (Agent.models a !! inhabitantId).
  - apply gt_Math_min_1.
Qed.

(** X21. One observed message is enough to be trusted: the first
    [updateModel] for an inhabitant creates its model with the sender's
    name, message count 1 and trust 0.52, which is above the 0.5 that
    [evaluate] asks for its trust bonus. *)
Theorem first_contact_is_trusted (inhabitantId : string) (message : Event.t) (a : Agent.t) :
  Agent.models a !! inhabitantId = None ->
  exists mo,
    Agent.models (Agent.updateModel inhabitantId message a) !! inhabitantId = Some mo /\
    Agent.ModelOfOther.name mo = Event.fromName message /\
    Agent.ModelOfOther.messageCount mo = 1 /\
    Agent.ModelOfOther.trust mo = 0.52%float /\
    JsNum.gt (Agent.ModelOfOther.trust mo) 0.5 = true.
Proof.
  intros Hnone. unfold Agent.updateModel. rewrite Hnone.
  cbn [Agent.models]. eexists. rewrite lookup_insert_eq.
  split; [reflexivity|]. repeat split.
Qed.

End ModelFacts.

(* ================================================================== *)
(** * The further properties on the concrete world and agent *)

Section MoreScenarioFacts.

Lemma leave_is_final_witness :
  let w1 := fst (World.leave demo_uuidv4 demo_Date_now observer 0 "vera"
                   (two_inhabitants observer)) in
  World.leave demo_uuidv4 demo_Date_now observer 0 "vera" w1 = (w1, Returned None) /\
  World.processMessage demo_uuidv4 demo_Date_now observer 0
                       "vera" "human-1" (Some "One last thing") None [] w1
  = (w1, Returned None).
Proof.
  apply (leave_is_final demo_uuidv4 demo_Date_now observer observer_quiet 0
           "vera" "human-1" (Some "One last thing") None [] (two_inhabitants observer)).
  apply two_inhabitants_wf.
Defined.

Lemma leave_keeps_relationships_witness :
  let w1 := fst (World.leave demo_uuidv4 demo_Date_now observer 0 "vera"
                   insistent_world) in
  World.relationships w1 = World.relationships insistent_world /\
  (forall k, k ≠ "vera" ->
             JsMap.get k (World.inhabitants w1)
             = JsMap.get k (World.inhabitants insistent_world)) /\
  length (World.memory w1)
  = length (World.memory insistent_world)
    + (if JsMap.has "vera" (World.inhabitants insistent_world) then 1 else 0).
Proof.
  apply (leave_keeps_relationships demo_uuidv4 demo_Date_now observer observer_quiet
           0 "vera" insistent_world).
Defined.



Lemma entanglement_never_exceeds_one_witness :
  lookup_edge (World.relationships insistent_world) "human-1" "vera"
  = Some (mkRelationship non_default 1 12 (Some 14)) /\
  JsNum.gt (entanglement (mkRelationship non_default 1 12 (Some 14))) 1 = false.
Proof.
  split; [reflexivity|].
  apply (entanglement_never_exceeds_one demo_uuidv4 demo_Date_now observer 0
           ([World.OpEnter ada; World.OpEnter vera_inhabitant] ++ ada_writes 12)
           "human-1" "vera").
  reflexivity.
Defined.

Lemma direct_message_is_local_witness :
  lookup_edge
    (World.relationships
       (World.updateRelationship "vera" "nobody" question_for_vera insistent_world))
    "human-1" "vera"
  = lookup_edge (World.relationships insistent_world) "human-1" "vera".
Proof.
  apply (direct_message_is_local "vera" "nobody" question_for_vera insistent_world
           "human-1" "vera").
  - discriminate.
  - intros [? _]. discriminate.
  - intros [? _]. discriminate.
Defined.

Lemma getState_after_message_witness :
  let s := World.getState insistent_world in
  let s' := World.getState
              (fst (World.processMessage demo_uuidv4 demo_Date_now observer 0
                      "vera" "human-1" (Some "Yes, I am here.") None []
                      insistent_world)) in
  World.State.messageCount s' = S (World.State.messageCount s) /\
  World.State.totalEvents s' = S (World.State.totalEvents s) /\
  World.State.inhabitantCount s' = World.State.inhabitantCount s /\
  World.State.inhabitants s' = World.State.inhabitants s.
Proof.
  apply (getState_after_message demo_uuidv4 demo_Date_now observer observer_quiet 0
           "vera" "human-1" (Some "Yes, I am here.") None [] insistent_world
           vera_inhabitant).
  reflexivity.
Defined.

Lemma handler_exception_keeps_message_witness :
  exists w1 m,
    World.processMessage demo_uuidv4 demo_Date_now throwing 2
                         "human-1" "world" (Some "Hello?") None []
                         (two_inhabitants observer)
    = (w1, Threw) /\
    World.memory w1 = World.memory (two_inhabitants observer) ++ [m] /\
    Event.data m = Event.MessageData "human-1" "Ada" "world" (Some "Hello?") None [] /\
    World.sequenceCounter w1 = 3.
Proof.
  apply (handler_exception_keeps_message demo_uuidv4 demo_Date_now throwing
           (fun _ => World.Throw) [] 2 "human-1" "world" (Some "Hello?") None []
           (two_inhabitants observer) ada).
  - reflexivity.
  - reflexivity.
  - reflexivity.
Defined.

Lemma direct_message_is_remembered_witness :
  JsNum.gt (snd (Agent.evaluate question_for_vera vera)) 0.3 = true /\
  Agent.experienceLog
    (Agent.integrateExperience question_for_vera
       (snd (Agent.evaluate question_for_vera vera))
       (fst (Agent.evaluate question_for_vera vera)))
  = Agent.experienceLog vera
    ++ [experience_of question_for_vera (snd (Agent.evaluate question_for_vera vera))].
Proof.
  apply (direct_message_is_remembered question_for_vera vera).
  - reflexivity.
  - simpl. lia.
Defined.

Lemma first_contact_is_trusted_witness :
  exists mo,
    Agent.models (Agent.updateModel "human-1" message_101 veteran) !! "human-1"
    = Some mo /\
    Agent.ModelOfOther.name mo = Event.fromName message_101 /\
    Agent.ModelOfOther.messageCount mo = 1 /\
    Agent.ModelOfOther.trust mo = 0.52%float /\
    JsNum.gt (Agent.ModelOfOther.trust mo) 0.5 = true.
Proof.
  apply (first_contact_is_trusted "human-1" message_101 veteran).
  reflexivity.
Defined.

End MoreScenarioFacts.
